(** * psycopg/_typeinfo.py: TypeInfo and TypesRegistry

    A shallow embedding of [psycopg/psycopg/_typeinfo.py].  Python objects
    live in a heap and are referred to by location, so that object
    identity ([is]) is equality of locations and the sharing of one
    [dict] between a registry and its template is visible.  Methods are
    computations in a state-and-exception monad over that heap.

    Embedded: [TypeInfo.__init__], [fetch], [_fetch], [_fetch_async],
    [_from_records], [_get_info_query], [_has_to_regtype_function],
    [_to_regtype], [_added]; [TypesRegistry.__init__], [clear], [add],
    [__getitem__], [get], [get_oid], [get_by_subtype],
    [__iter__], [_ensure_own_state]; [register].  Not embedded:
    [__repr__]. *)

From stdpp Require Import gmap strings list fin_maps pretty.
From Stdlib Require Import ZArith String Ascii.

Local Open Scope Z_scope.
Local Open Scope string_scope.

(** ** Python values used as registry keys

    [RegistryKey = Union[str, int, Tuple[type, int]]] is only a type hint:
    at run time [__getitem__] receives an arbitrary object.  [PStr] and
    [PInt] are [str] and [int] objects ([bool] is a subclass of [int] and
    [True == 1] as a dict key, so [True] is looked up as [PInt 1]);
    [PTuple] is a tuple of any length whose members are strings, integers
    or class objects (tuples with unhashable members, or with floats, which
    compare equal to integers, are outside the model); [POther tn] is an
    object of any other type, whose class is named [tn] ([float], [bytes],
    [NoneType], [list], ...).  Equality of these values is equality of
    dict keys. *)

Inductive atom :=
  | AStr (s : string)
  | AInt (z : Z)
  | AType (qualname : string).

Inductive pyval :=
  | PStr (s : string)
  | PInt (z : Z)
  | PTuple (items : list atom)
  | POther (type_name : string).

#[global] Instance atom_eq_dec : EqDecision atom.
Proof. solve_decision. Defined.

#[global] Instance pyval_eq_dec : EqDecision pyval.
Proof. solve_decision. Defined.

Definition atom_to_sum (a : atom) : string + Z + string :=
  match a with
  | AStr s => inl (inl s)
  | AInt z => inl (inr z)
  | AType q => inr q
  end.

Definition atom_of_sum (x : string + Z + string) : atom :=
  match x with
  | inl (inl s) => AStr s
  | inl (inr z) => AInt z
  | inr q => AType q
  end.

#[global] Instance atom_countable : Countable atom.
Proof.
  refine (inj_countable' atom_to_sum atom_of_sum _).
  intros []; reflexivity.
Defined.

Definition pyval_to_sum (v : pyval) : string + Z + list atom + string :=
  match v with
  | PStr s => inl (inl (inl s))
  | PInt z => inl (inl (inr z))
  | PTuple l => inl (inr l)
  | POther t => inr t
  end.

Definition pyval_of_sum (x : string + Z + list atom + string) : pyval :=
  match x with
  | inl (inl (inl s)) => PStr s
  | inl (inl (inr z)) => PInt z
  | inl (inr l) => PTuple l
  | inr t => POther t
  end.

#[global] Instance pyval_countable : Countable pyval.
Proof.
  refine (inj_countable' pyval_to_sum pyval_of_sum _).
  intros []; reflexivity.
Defined.

(** [type(key)] as printed inside an f-string. *)
Definition type_repr (v : pyval) : string :=
  match v with
  | PStr _ => "<class 'str'>"
  | PInt _ => "<class 'int'>"
  | PTuple _ => "<class 'tuple'>"
  | POther tn => "<class '" ++ tn ++ "'>"
  end.

(** ** String helpers: [str.endswith] and the slice [s[:-n]] *)

Definition endswith (s suffix : string) : bool :=
  (String.length suffix <=? String.length s)%nat
  && String.eqb
       (substring (String.length s - String.length suffix)
                  (String.length suffix) s)
       suffix.

(** [s[:-n]] for [n > 0]: everything but the last [n] characters. *)
Definition slice_to_neg (n : nat) (s : string) : string :=
  substring 0 (String.length s - n) s.

(** ** Exceptions

    An exception object is modelled by its class, the names of the proper
    ancestors of that class, and its argument.  [isinstance_exn] is what an
    [except C:] clause tests. *)

Record exn := Exn {
  exc_class : string;
  exc_bases : list string;
  exc_arg : pyval;
}.

Definition isinstance_exn (e : exn) (cls : string) : bool :=
  String.eqb (exc_class e) cls || existsb (String.eqb cls) (exc_bases e).

Definition KeyError (key : pyval) : exn :=
  Exn "KeyError" ["LookupError"; "Exception"; "BaseException"] key.

Definition TypeError (msg : string) : exn :=
  Exn "TypeError" ["Exception"; "BaseException"] (PStr msg).

Definition AttributeError (msg : string) : exn :=
  Exn "AttributeError" ["Exception"; "BaseException"] (PStr msg).

(** [psycopg.errors.ProgrammingError], in the DB-API hierarchy. *)
Definition ProgrammingError (msg : string) : exn :=
  Exn "ProgrammingError" ["DatabaseError"; "Error"; "Exception"; "BaseException"]
      (PStr msg).

(** ** The heap

    Three kinds of objects are allocated by this module: [TypeInfo]
    instances, [dict] objects (the [_registry] index, from keys to
    references to [TypeInfo] instances) and [TypesRegistry] instances.
    One counter hands out the locations, so a location names at most one
    object. *)

Definition loc := nat.

Record TypeInfo := {
  name : string;
  oid : Z;
  array_oid : Z;
  regtype : string;
  delimiter : string;
}.

Record TypesRegistry := {
  _registry : loc;      (* reference to the dict, possibly shared *)
  _own_state : bool;
}.

Record Heap := {
  objects : gmap loc TypeInfo;
  dicts : gmap loc (gmap pyval loc);
  registries : gmap loc TypesRegistry;
  next_loc : loc;
}.

Definition empty_heap : Heap :=
  {| objects := ∅; dicts := ∅; registries := ∅; next_loc := 0%nat |}.

(** ** The monad: heap threading, exceptions, and [Stuck] for an access
    through a reference that names no object of the expected kind (which
    no Python run of this module reaches). *)

Inductive outcome (A : Type) :=
  | Ok (a : A)
  | Raise (e : exn)
  | Stuck.
Arguments Ok {A} a.
Arguments Raise {A} e.
Arguments Stuck {A}.

Definition M (A : Type) : Type := Heap → outcome A * Heap.

#[global] Instance M_ret : MRet M := λ A a h, (Ok a, h).

#[global] Instance M_bind : MBind M := λ A B f m h,
  match m h with
  | (Ok a, h') => f a h'
  | (Raise e, h') => (Raise e, h')
  | (Stuck, h') => (Stuck, h')
  end.

Definition raise {A} (e : exn) : M A := λ h, (Raise e, h).

(** [try: body / except cls: handler] *)
Definition try_except {A} (body : M A) (cls : string) (handler : M A) : M A :=
  λ h, match body h with
       | (Raise e, h') =>
           if isinstance_exn e cls then handler h' else (Raise e, h')
       | r => r
       end.

(** The outcome of a computation that does not write to the heap (a
    lookup), as a value. *)
Definition outcome_of {A} (m : M A) : M (outcome A) := λ h, (Ok (fst (m h)), h).

(** Heap updates. *)
Definition heap_alloc (h : Heap) : Heap :=
  {| objects := objects h; dicts := dicts h; registries := registries h;
     next_loc := S (next_loc h) |}.

Definition heap_set_info (l : loc) (i : TypeInfo) (h : Heap) : Heap :=
  {| objects := <[l := i]> (objects h); dicts := dicts h;
     registries := registries h; next_loc := next_loc h |}.

Definition heap_set_dict (l : loc) (d : gmap pyval loc) (h : Heap) : Heap :=
  {| objects := objects h; dicts := <[l := d]> (dicts h);
     registries := registries h; next_loc := next_loc h |}.

Definition heap_set_registry (l : loc) (r : TypesRegistry) (h : Heap) : Heap :=
  {| objects := objects h; dicts := dicts h;
     registries := <[l := r]> (registries h); next_loc := next_loc h |}.

(** Object creation: the next location. *)
Definition alloc : M loc := λ h, (Ok (next_loc h), heap_alloc h).

Definition read_info (l : loc) : M TypeInfo := λ h,
  match objects h !! l with Some i => (Ok i, h) | None => (Stuck, h) end.

Definition write_info (l : loc) (i : TypeInfo) : M unit := λ h,
  (Ok (), heap_set_info l i h).

Definition read_dict (l : loc) : M (gmap pyval loc) := λ h,
  match dicts h !! l with Some d => (Ok d, h) | None => (Stuck, h) end.

Definition write_dict (l : loc) (d : gmap pyval loc) : M unit := λ h,
  (Ok (), heap_set_dict l d h).

Definition read_registry (l : loc) : M TypesRegistry := λ h,
  match registries h !! l with Some r => (Ok r, h) | None => (Stuck, h) end.

Definition write_registry (l : loc) (r : TypesRegistry) : M unit := λ h,
  (Ok (), heap_set_registry l r h).

(** A dict display [{...}] or [d.copy()]: a new dict object. *)
Definition new_dict (d : gmap pyval loc) : M loc :=
  l ← alloc; write_dict l d;; mret l.

(** [self._registry[key] = value]: in-place update of the dict that
    [self._registry] refers to at that moment. *)
Definition registry_setitem (self : loc) (key : pyval) (value : loc) : M unit :=
  r ← read_registry self;
  d ← read_dict (_registry r);
  write_dict (_registry r) (<[key := value]> d).

(** The dict that [self._registry] refers to. *)
Definition registry_dict (self : loc) : M (gmap pyval loc) :=
  r ← read_registry self; read_dict (_registry r).

(** ** Connections, catalog rows and the query executor

    The connection classes, cursors, transactions and [sql] objects are
    external collaborators.  A connection is seen through its class and
    its [info] ([vendor], [server_version]); a row produced by
    [dict_row] for the catalog query is a mapping with exactly the five
    selected columns, which are the parameters of [TypeInfo.__init__]. *)

Record ConnectionInfo := {
  vendor : string;
  server_version : Z;
}.

Inductive connection_class :=
  | Connection
  | AsyncConnection
  | OtherClass (type_name : string).

Record BaseConnection := {
  conn_class : connection_class;
  info : ConnectionInfo;
}.

Record Row := {
  row_name : string;
  row_oid : Z;
  row_array_oid : Z;
  row_regtype : string;
  row_delimiter : string;
}.

(** What the block
    [with conn.transaction(): with conn.cursor(...) as cur:
       cur.execute(query, {"name": name}); recs = cur.fetchall()]
    does: it binds [recs], or an exception leaves the block. *)
Inductive query_result :=
  | QRows (recs : list Row)
  | QRaise (e : exn).

(** [name] argument of [fetch]: a [str] or an [sql.Composable]. *)
Inductive name_arg (Composable : Type) :=
  | NameStr (s : string)
  | NameComposable (c : Composable).
Arguments NameStr {Composable} s.
Arguments NameComposable {Composable} c.

Definition nl : string := String (ascii_of_nat 10) "".

(** ** class TypeInfo *)

Module TypeInfo.

(** [TypeInfo(name, oid, array_oid, *, regtype="", delimiter=",")] *)
Definition __init__ (name : string) (oid array_oid : Z)
    (regtype : string) (delimiter : string) : M loc :=
  self ← alloc;
  write_info self
    {| name := name; oid := oid; array_oid := array_oid;
       regtype := if String.eqb regtype "" then name else regtype;
       delimiter := delimiter |};;
  mret self.

Definition _has_to_regtype_function (conn : BaseConnection) : bool :=
  let info := info conn in
  if String.eqb (vendor info) "PostgreSQL" then
    (90400 <=? server_version info)%Z
  else if String.eqb (vendor info) "CockroachDB" then
    (220200 <=? server_version info)%Z
  else false.

Definition _to_regtype (conn : BaseConnection) : string :=
  if _has_to_regtype_function conn then "to_regtype(%(name)s)"
  else "%(name)s::regtype".

(** The query template with [{regtype}] filled in. *)
Definition info_query (regtype : string) : string :=
  "SELECT" ++ nl ++
  "    typname AS name, oid, typarray AS array_oid," ++ nl ++
  "    oid::regtype::text AS regtype, typdelim AS delimiter" ++ nl ++
  "FROM pg_type t" ++ nl ++
  "WHERE t.oid = " ++ regtype ++ nl ++
  "ORDER BY t.oid" ++ nl.

Definition _get_info_query (conn : BaseConnection) : string :=
  info_query (_to_regtype conn).

(** One row: the class is called with the row's columns as keyword
    arguments; no row: [None]; otherwise [ProgrammingError]. *)
Definition _from_records (name : string) (recs : list Row) : M (option loc) :=
  match recs with
  | [r] =>
      t ← __init__ (row_name r) (row_oid r) (row_array_oid r)
                   (row_regtype r) (row_delimiter r);
      mret (Some t)
  | [] => mret None
  | _ =>
      raise (ProgrammingError
               ("found " ++ pretty (List.length recs)
                ++ " different types named " ++ name))
  end.

Section Fetch.

Context {Composable : Type}.
(** [name.as_string(conn)] *)
Variable as_string : Composable → BaseConnection → string.
(** The transaction-and-cursor block, for a connection, the query text
    and the value of the [name] parameter. *)
Variable execute_fetchall : BaseConnection → string → string → query_result.

(** The [with] block as a computation: it yields [recs] or raises. *)
Definition run_query (conn : BaseConnection) (query name : string)
    : M (list Row) :=
  match execute_fetchall conn query name with
  | QRows recs => mret recs
  | QRaise e => raise e
  end.

(** [try: ... recs = cur.fetchall() / except e.UndefinedObject: return None],
    then [return cls._from_records(name, recs)]. *)
Definition _fetch (conn : BaseConnection) (name : string) : M (option loc) :=
  fetched ← try_except
              (recs ← run_query conn (_get_info_query conn) name;
               mret (Some recs))
              "UndefinedObject" (mret None);
  match fetched with
  | None => mret None
  | Some recs => _from_records name recs
  end.

(** The same, with [async with] and [await]. *)
Definition _fetch_async (conn : BaseConnection) (name : string)
    : M (option loc) :=
  fetched ← try_except
              (recs ← run_query conn (_get_info_query conn) name;
               mret (Some recs))
              "UndefinedObject" (mret None);
  match fetched with
  | None => mret None
  | Some recs => _from_records name recs
  end.

Definition fetch (conn : BaseConnection) (name : name_arg Composable)
    : M (option loc) :=
  let name := match name with
              | NameComposable c => as_string c conn
              | NameStr s => s
              end in
  match conn_class conn with
  | Connection => _fetch conn name
  | AsyncConnection => _fetch_async conn name
  | OtherClass tn =>
      raise (TypeError
               ("expected Connection or AsyncConnection, got " ++ tn))
  end.

End Fetch.

(** [_added]: called by the registry after the object is added; [pass]. *)
Definition _added (self registry : loc) : M unit := mret ().

End TypeInfo.

(** ** class TypesRegistry *)

Module TypesRegistry.

Definition clear (self : loc) : M unit :=
  d ← new_dict ∅;
  write_registry self {| _registry := d; _own_state := true |}.

(** [TypesRegistry(template)].  A [TypesRegistry] defines neither
    [__bool__] nor [__len__], so [if template:] tests [template is not
    None]. *)
Definition __init__ (template : option loc) : M loc :=
  self ← alloc;
  match template with
  | Some t =>
      rt ← read_registry t;
      write_registry self {| _registry := _registry rt; _own_state := false |};;
      rt' ← read_registry t;
      write_registry t {| _registry := _registry rt'; _own_state := false |}
  | None => clear self
  end;;
  mret self.

Definition _ensure_own_state (self : loc) : M unit :=
  r ← read_registry self;
  if _own_state r then mret ()
  else
    d ← read_dict (_registry r);
    c ← new_dict d;
    write_registry self {| _registry := c; _own_state := true |}.

Definition add (self info : loc) : M unit :=
  _ensure_own_state self;;
  i ← read_info info;
  (if negb (Z.eqb (oid i) 0)
   then registry_setitem self (PInt (oid i)) info
   else mret ());;
  (if negb (Z.eqb (array_oid i) 0)
   then registry_setitem self (PInt (array_oid i)) info
   else mret ());;
  registry_setitem self (PStr (name i)) info;;
  d ← registry_dict self;
  (if negb (String.eqb (regtype i) "")
      && negb (bool_decide (is_Some (d !! PStr (regtype i))))
   then registry_setitem self (PStr (regtype i)) info
   else mret ());;
  TypeInfo._added info self.

Definition __getitem__ (self : loc) (key : pyval) : M loc :=
  key' ← match key with
         | PStr s =>
             mret (if endswith s "[]" then PStr (slice_to_neg 2 s) else key)
         | PInt _ | PTuple _ => mret key
         | POther _ =>
             raise (TypeError ("the key must be an oid or a name, got "
                               ++ type_repr key))
         end;
  d ← registry_dict self;
  match d !! key' with
  | Some t => mret t
  | None => raise (KeyError key')
  end.

Definition get (self : loc) (key : pyval) : M (option loc) :=
  try_except (t ← __getitem__ self key; mret (Some t)) "KeyError" (mret None).

Definition get_oid (self : loc) (name : pyval) : M Z :=
  t ← __getitem__ self name;
  match name with
  | PStr s =>
      i ← read_info t;
      mret (if endswith s "[]" then array_oid i else oid i)
  | _ =>
      raise (AttributeError
               ("'" ++ match name with
                       | PInt _ => "int" | PTuple _ => "tuple"
                       | PStr _ => "str" | POther tn => tn
                       end ++ "' object has no attribute 'endswith'"))
  end.

Definition get_by_subtype (self : loc) (cls : string) (subtype : pyval)
    : M (option loc) :=
  found ← try_except (t ← __getitem__ self subtype; mret (Some t))
                     "KeyError" (mret None);
  match found with
  | None => mret None
  | Some info =>
      i ← read_info info;
      get self (PTuple [AType cls; AInt (oid i)])
  end.

(** The loop of [__iter__] over the sequence [self._registry.values()]:
    [seen] holds the [id]s already yielded; the result is the sequence of
    yields of the generator run to exhaustion. *)
Fixpoint iter_values (seen : gset loc) (values : list loc) : list loc :=
  match values with
  | [] => []
  | t :: rest =>
      if decide (t ∈ seen) then iter_values seen rest
      else t :: iter_values ({[t]} ∪ seen) rest
  end.

Section Iter.

(** [d.values()]: the values of a dict in insertion order.  The index is
    a [gmap], which does not record that order, so the enumeration is a
    parameter. *)
Variable dict_values : gmap pyval loc → list loc.

Definition __iter__ (self : loc) : M (list loc) :=
  d ← registry_dict self;
  mret (iter_values ∅ (dict_values d)).

End Iter.

End TypesRegistry.

(** ** TypeInfo.register

    The adaptation context, the global registry [postgres.types] and
    [register_array] of [types/array.py] are external: a context is seen
    through [context.adapters.types], a reference to a registry. *)

Section Register.

Context {AdaptContext : Type}.
Variable adapters_types : AdaptContext → loc.
Variable postgres_types : loc.
Variable register_array : loc → option AdaptContext → M unit.

(** [if context:] is taken as [context is not None]. *)
Definition register (self : loc) (context : option AdaptContext) : M unit :=
  let types := match context with
               | Some c => adapters_types c
               | None => postgres_types
               end in
  TypesRegistry.add types self;;
  i ← read_info self;
  if negb (Z.eqb (array_oid i) 0) then register_array self context
  else mret ().

End Register.

(** ** Derived definitions used to state the properties *)

(** The text that [fetch] passes on as the [name] parameter. *)
Definition name_text {Composable : Type}
    (as_string : Composable → BaseConnection → string)
    (conn : BaseConnection) (name : name_arg Composable) : string :=
  match name with
  | NameComposable c => as_string c conn
  | NameStr s => s
  end.

(** The key that [__getitem__] looks up in the dict, for a key that passes
    its type test. *)
Definition normalize_key (key : pyval) : pyval :=
  match key with
  | PStr s => if endswith s "[]" then PStr (slice_to_neg 2 s) else key
  | _ => key
  end.

(** The contents of the dict after the four conditional stores of [add],
    as a function of its contents before them. *)
Definition add_index (i : TypeInfo) (info : loc) (d : gmap pyval loc)
    : gmap pyval loc :=
  let d1 := if negb (Z.eqb (oid i) 0) then <[PInt (oid i) := info]> d else d in
  let d2 := if negb (Z.eqb (array_oid i) 0)
            then <[PInt (array_oid i) := info]> d1 else d1 in
  let d3 := <[PStr (name i) := info]> d2 in
  if negb (String.eqb (regtype i) "")
     && negb (bool_decide (is_Some (d3 !! PStr (regtype i))))
  then <[PStr (regtype i) := info]> d3 else d3.

(** Heaps as this module builds them: every registry and every dict has
    been allocated, a registry refers to a dict, and the [regtype] of a
    descriptor is [regtype or name], hence empty only if the name is. *)
Definition wf (h : Heap) : Prop :=
  map_Forall
    (λ r reg, (r < next_loc h)%nat ∧ is_Some (dicts h !! _registry reg))
    (registries h)
  ∧ map_Forall (λ l _, (l < next_loc h)%nat) (dicts h)
  ∧ map_Forall (λ _ i, regtype i = "" → name i = "") (objects h).

#[global] Instance wf_dec (h : Heap) : Decision (wf h).
Proof. unfold wf. apply _. Defined.

(** The contents of the dict that registry [r] refers to. *)
Definition own_storage (h : Heap) (r : loc) : option (gmap pyval loc) :=
  registries h !! r ≫= λ reg, dicts h !! _registry reg.


(** Every lookup operation of registry [r] has the same outcome in [h] and
    in [h']. *)
Definition lookups_agree (h h' : Heap) (r : loc) : Prop :=
  ∀ key : pyval,
    fst (TypesRegistry.__getitem__ r key h) = fst (TypesRegistry.__getitem__ r key h')
    ∧ fst (TypesRegistry.get r key h) = fst (TypesRegistry.get r key h')
    ∧ fst (TypesRegistry.get_oid r key h) = fst (TypesRegistry.get_oid r key h')
    ∧ ∀ cls, fst (TypesRegistry.get_by_subtype r cls key h)
             = fst (TypesRegistry.get_by_subtype r cls key h').

(** Every lookup operation has the same outcome on registry [r] in [h]
    as on registry [r'] in [h']. *)
Definition lookups_coincide (h : Heap) (r : loc) (h' : Heap) (r' : loc)
    : Prop :=
  ∀ key : pyval,
    fst (TypesRegistry.__getitem__ r key h)
    = fst (TypesRegistry.__getitem__ r' key h')
    ∧ fst (TypesRegistry.get r key h) = fst (TypesRegistry.get r' key h')
    ∧ fst (TypesRegistry.get_oid r key h)
      = fst (TypesRegistry.get_oid r' key h')
    ∧ ∀ cls, fst (TypesRegistry.get_by_subtype r cls key h)
             = fst (TypesRegistry.get_by_subtype r' cls key h').

(** A registry marked as owning its dict is the only one that refers to
    it. *)
Definition exclusive (h : Heap) : Prop :=
  map_Forall
    (λ r1 reg1,
       map_Forall
         (λ r2 reg2,
            r1 ≠ r2 → _registry reg1 = _registry reg2 →
            _own_state reg1 = false)
         (registries h))
    (registries h).

#[global] Instance exclusive_dec (h : Heap) : Decision (exclusive h).
Proof. unfold exclusive. apply _. Defined.

(** Descriptors have been allocated; the values of every index are
    descriptors and its keys are strings or integers. *)
Definition index_ok (h : Heap) : Prop :=
  map_Forall (λ l _, (l < next_loc h)%nat) (objects h)
  ∧ map_Forall
      (λ _ d,
         map_Forall
           (λ key t,
              is_Some (objects h !! t)
              ∧ match key with PStr _ | PInt _ => True | _ => False end)
           d)
      (dicts h).

(** The heaps that calls of the constructors, [clear] and [add] build from
    the empty heap (lookups and [_fetch] change the heap only through
    [TypeInfo.__init__]). *)
Inductive reachable : Heap → Prop :=
  | reach_empty : reachable empty_heap
  | reach_info h (n : string) (o a : Z) (rt dl : string) :
      reachable h → reachable (snd (TypeInfo.__init__ n o a rt dl h))
  | reach_registry h :
      reachable h → reachable (snd (TypesRegistry.__init__ None h))
  | reach_derive h (t : loc) (rt : TypesRegistry) :
      reachable h → registries h !! t = Some rt →
      reachable (snd (TypesRegistry.__init__ (Some t) h))
  | reach_clear h (self : loc) (r : TypesRegistry) :
      reachable h → registries h !! self = Some r →
      reachable (snd (TypesRegistry.clear self h))
  | reach_add h (self x : loc) (r : TypesRegistry) (i : TypeInfo) :
      reachable h → registries h !! self = Some r → objects h !! x = Some i →
      reachable (snd (TypesRegistry.add self x h)).

(** An enumeration of the values of a dict, such as [d.values()]: it
    lists exactly the values of the bindings. *)
Definition enumerates_values (dict_values : gmap pyval loc → list loc) : Prop :=
  ∀ (d : gmap pyval loc) (t : loc),
    t ∈ dict_values d ↔ ∃ key, d !! key = Some t.

(** ** Example programs

    They run on [empty_heap]; the first object created gets location 0. *)

(** A registry [0] (its dict is [1]) in which [2 = TypeInfo("foo", 1, 2)]
    is registered; [3 = TypeInfo("bar", 3, 4, regtype="foo")],
    [4 = TypeInfo("baz[]", 5, 6)] and
    [5 = TypeInfo("int4", 23, 1007, regtype="integer")] exist but are not
    registered. *)
Definition example_setup : M unit :=
  r ← TypesRegistry.__init__ None;
  foo ← TypeInfo.__init__ "foo" 1 2 "" ",";
  TypesRegistry.add r foo;;
  _ ← TypeInfo.__init__ "bar" 3 4 "foo" ",";
  _ ← TypeInfo.__init__ "baz[]" 5 6 "" ",";
  _ ← TypeInfo.__init__ "int4" 23 1007 "integer" ",";
  mret ().

Definition example_heap : Heap := snd (example_setup empty_heap).

(** [example_heap] after [TypesRegistry(template)] with the registry [0] as
    template: the new registry is [6]. *)
Definition derived_heap : Heap :=
  snd (TypesRegistry.__init__ (Some 0%nat) example_heap).

Definition pg15 : BaseConnection :=
  {| conn_class := Connection;
     info := {| vendor := "PostgreSQL"; server_version := 150004 |} |}.

Definition int4_row : Row :=
  {| row_name := "int4"; row_oid := 23; row_array_oid := 1007;
     row_regtype := "integer"; row_delimiter := "," |}.

(** Lookups by [regtype] and by [name] after [add]: [bar] has the regtype
    ["foo"], which is the registered name of [foo]; the name of [baz]
    ends with the array marker. *)
Definition roundtrip_program : M (loc * loc * loc * outcome loc * outcome loc) :=
  r ← TypesRegistry.__init__ None;
  foo ← TypeInfo.__init__ "foo" 1 2 "" ",";
  TypesRegistry.add r foo;;
  bar ← TypeInfo.__init__ "bar" 3 4 "foo" ",";
  TypesRegistry.add r bar;;
  baz ← TypeInfo.__init__ "baz[]" 5 6 "" ",";
  TypesRegistry.add r baz;;
  by_regtype ← outcome_of (TypesRegistry.__getitem__ r (PStr "foo"));
  by_name ← outcome_of (TypesRegistry.__getitem__ r (PStr "baz[]"));
  mret (foo, bar, baz, by_regtype, by_name).

(** Two descriptors named ["foo"], the second with [oid = 0]; its regtype
    defaults to its name. *)
Definition same_name_program
    : M (loc * loc * option loc * option loc * option loc) :=
  r ← TypesRegistry.__init__ None;
  first ← TypeInfo.__init__ "foo" 1 2 "" ",";
  TypesRegistry.add r first;;
  second ← TypeInfo.__init__ "foo" 0 4 "" ",";
  TypesRegistry.add r second;;
  by_regtype ← TypesRegistry.get r (PStr "foo");
  by_oid ← TypesRegistry.get r (PInt 0);
  by_array_oid ← TypesRegistry.get r (PInt 4);
  mret (first, second, by_regtype, by_oid, by_array_oid).

(** A three-member tuple and the empty tuple as keys. *)
Definition tuple_key_program
    : M (outcome loc * option loc * outcome loc * option loc) :=
  r ← TypesRegistry.__init__ None;
  foo ← TypeInfo.__init__ "foo" 1 2 "" ",";
  TypesRegistry.add r foo;;
  by_index3 ← outcome_of (TypesRegistry.__getitem__ r
                            (PTuple [AInt 1; AInt 2; AInt 3]));
  by_get3 ← TypesRegistry.get r (PTuple [AInt 1; AInt 2; AInt 3]);
  by_index0 ← outcome_of (TypesRegistry.__getitem__ r (PTuple []));
  by_get0 ← TypesRegistry.get r (PTuple []);
  mret (by_index3, by_get3, by_index0, by_get0).


(** A descriptor named ["bar[]"] whose regtype is ["bar"]. *)
Definition array_named_program : M (loc * outcome loc * option loc) :=
  r ← TypesRegistry.__init__ None;
  bar ← TypeInfo.__init__ "bar[]" 3 4 "bar" ",";
  TypesRegistry.add r bar;;
  by_index ← outcome_of (TypesRegistry.__getitem__ r (PStr "bar[]"));
  by_get ← TypesRegistry.get r (PStr "bar[]");
  mret (bar, by_index, by_get).

(** The index of the registry [0] of [example_heap]. *)
Definition example_index : gmap pyval loc :=
  default ∅ (dicts example_heap !! 1%nat).

(** [example_heap] with one more descriptor, [6 = TypeInfo("foo", 7, 8)],
    which has the name of the registered [2]. *)
Definition second_foo_heap : Heap :=
  snd (TypeInfo.__init__ "foo" 7 8 "" "," example_heap).

(** An empty registry [0] (its dict is [1]) and a descriptor
    [2 = TypeInfo("foo", 1, 2)] that is not registered. *)
Definition empty_registry_heap : Heap :=
  snd (TypeInfo.__init__ "foo" 1 2 "" ","
         (snd (TypesRegistry.__init__ None empty_heap))).

(** An enumeration of the values of a dict: in the order of
    [map_to_list]. *)
Definition map_values (d : gmap pyval loc) : list loc := (map_to_list d).*2.

(** Unfolds the monad and the heap primitives. *)
Ltac unfold_M :=
  unfold registry_setitem, registry_dict, new_dict, TypeInfo._added, raise,
    alloc, read_info, write_info, read_dict, write_dict, read_registry,
    write_registry, mbind, M_bind, mret, M_ret in *.

(** * Properties *)

(** ** Strings: [endswith] and the slice are the usual suffix operations *)

Section StringFacts.

Lemma length_append (b t : string) :
  String.length (b ++ t) = (String.length b + String.length t)%nat.
Proof. induction b as [|c b IH]; simpl; [done | by rewrite IH]. Qed.

Lemma substring_whole (t : string) : substring 0 (String.length t) t = t.
Proof. induction t as [|c t IH]; simpl; [done | by rewrite IH]. Qed.

Lemma substring_app_prefix (b t : string) :
  substring 0 (String.length b) (b ++ t) = b.
Proof.
  induction b as [|c b IH]; simpl.
  - by destruct t.
  - by rewrite IH.
Qed.

Lemma substring_app_suffix (b t : string) :
  substring (String.length b) (String.length t) (b ++ t) = t.
Proof. induction b as [|c b IH]; simpl; [apply substring_whole | done]. Qed.

Lemma substring_split (s : string) (n : nat) :
  (n ≤ String.length s)%nat →
  substring 0 n s ++ substring n (String.length s - n) s = s.
Proof.
  revert n. induction s as [|c s IH]; intros [|n] Hn; simpl in *; try lia.
  - done.
  - by rewrite substring_whole.
  - change (String c (substring 0 n s ++ substring n (String.length s - n) s)
            = String c s).
    rewrite IH; [done | lia].
Qed.

Lemma endswith_app (b suffix : string) : endswith (b ++ suffix) suffix = true.
Proof.
  unfold endswith. rewrite length_append.
  replace (String.length b + String.length suffix - String.length suffix)%nat
    with (String.length b) by lia.
  rewrite substring_app_suffix, String.eqb_refl, andb_true_r.
  apply Nat.leb_le. lia.
Qed.

Lemma slice_to_neg_app (b suffix : string) :
  slice_to_neg (String.length suffix) (b ++ suffix) = b.
Proof.
  unfold slice_to_neg. rewrite length_append.
  replace (String.length b + String.length suffix - String.length suffix)%nat
    with (String.length b) by lia.
  apply substring_app_prefix.
Qed.

Lemma endswith_inv (s suffix : string) :
  endswith s suffix = true →
  s = slice_to_neg (String.length suffix) s ++ suffix.
Proof.
  unfold endswith, slice_to_neg. intros H.
  apply andb_true_iff in H as [Hlen Heq].
  apply Nat.leb_le in Hlen. apply String.eqb_eq in Heq.
  etransitivity;
    [symmetry;
     apply (substring_split s (String.length s - String.length suffix)); lia |].
  f_equal.
  replace (String.length s - (String.length s - String.length suffix))%nat
    with (String.length suffix) by lia.
  exact Heq.
Qed.

(** A name that ends with the array marker differs from its base. *)
Lemma slice_array_marker_ne (s : string) :
  endswith s "[]" = true → slice_to_neg 2 s ≠ s.
Proof.
  intros H Heq. apply (endswith_inv s "[]") in H. simpl in H.
  rewrite Heq in H. apply (f_equal String.length) in H.
  rewrite length_append in H. simpl in H. lia.
Qed.

End StringFacts.

(** ** The fetch protocol *)

Section FetchFacts.

Context {Composable : Type}.
Variable as_string : Composable → BaseConnection → string.
Variable execute_fetchall : BaseConnection → string → string → query_result.

Lemma fetch_sync_or_async conn name :
  conn_class conn = Connection ∨ conn_class conn = AsyncConnection →
  TypeInfo.fetch as_string execute_fetchall conn name
  = TypeInfo._fetch execute_fetchall conn (name_text as_string conn name).
Proof. unfold TypeInfo.fetch. by intros [-> | ->]. Qed.

Lemma fetch_other_class conn name tn h :
  conn_class conn = OtherClass tn →
  TypeInfo.fetch as_string execute_fetchall conn name h
  = (Raise (TypeError ("expected Connection or AsyncConnection, got " ++ tn)), h).
Proof. unfold TypeInfo.fetch. by intros ->. Qed.

(** The blocking and the suspending variant are the same function of the
    executor's answer. *)
Lemma fetch_async_eq conn name :
  TypeInfo._fetch_async execute_fetchall conn name
  = TypeInfo._fetch execute_fetchall conn name.
Proof. reflexivity. Qed.

(** C3.  Zero catalog rows: fetch returns [None]; exactly one row: fetch
    constructs a new descriptor from that row (fresh object whose
    attributes are the row's columns, [regtype] defaulting to the name)
    and returns it; more than one row: fetch raises [ProgrammingError]
    and constructs nothing. *)
Theorem fetch_by_row_count conn name recs h :
  conn_class conn = Connection ∨ conn_class conn = AsyncConnection →
  execute_fetchall conn (TypeInfo._get_info_query conn) (name_text as_string conn name)
    = QRows recs →
  match recs with
  | [] =>
      TypeInfo.fetch as_string execute_fetchall conn name h = (Ok None, h)
  | [r] =>
      TypeInfo.fetch as_string execute_fetchall conn name h
      = (Ok (Some (next_loc h)),
         heap_set_info (next_loc h)
           {| name := row_name r; oid := row_oid r;
              array_oid := row_array_oid r;
              regtype := if String.eqb (row_regtype r) ""
                         then row_name r else row_regtype r;
              delimiter := row_delimiter r |}
           (heap_alloc h))
  | _ :: _ :: _ =>
      ∃ msg, TypeInfo.fetch as_string execute_fetchall conn name h
             = (Raise (ProgrammingError msg), h)
  end.
Proof.
  intros Hcls Hq. rewrite fetch_sync_or_async by done.
  unfold TypeInfo._fetch, TypeInfo.run_query, try_except. unfold_M.
  rewrite Hq.
  destruct recs as [|r [|r' recs]]; [done | done |].
  eexists. reflexivity.
Qed.

(** C4.  When the query raises, fetch returns [None] if the exception is
    an [UndefinedObject], and otherwise lets that same exception
    propagate; nothing else is done. *)
Theorem fetch_intercepts_only_UndefinedObject conn name e h :
  conn_class conn = Connection ∨ conn_class conn = AsyncConnection →
  execute_fetchall conn (TypeInfo._get_info_query conn) (name_text as_string conn name)
    = QRaise e →
  TypeInfo.fetch as_string execute_fetchall conn name h
  = if isinstance_exn e "UndefinedObject" then (Ok None, h) else (Raise e, h).
Proof.
  intros Hcls Hq. rewrite fetch_sync_or_async by done.
  unfold TypeInfo._fetch, TypeInfo.run_query, try_except. unfold_M.
  rewrite Hq.
  by destruct (isinstance_exn e "UndefinedObject").
Qed.

End FetchFacts.

Lemma has_to_regtype_function_iff (conn : BaseConnection) :
  TypeInfo._has_to_regtype_function conn = true
  ↔ (vendor (info conn) = "PostgreSQL" ∧ (90400 ≤ server_version (info conn))%Z)
    ∨ (vendor (info conn) = "CockroachDB"
       ∧ (220200 ≤ server_version (info conn))%Z).
Proof.
  unfold TypeInfo._has_to_regtype_function.
  destruct (String.eqb_spec (vendor (info conn)) "PostgreSQL") as [Hpg | Hpg].
  - rewrite Z.leb_le, Hpg. split; [by left |].
    intros [[_ ?] | [? _]]; [done | discriminate].
  - destruct (String.eqb_spec (vendor (info conn)) "CockroachDB") as [Hcr | Hcr].
    + rewrite Z.leb_le. split; [by right |].
      intros [[? _] | [_ ?]]; done.
    + split; [done |]. intros [[? _] | [? _]]; done.
Qed.

(** C5.  The catalog query uses [to_regtype()] exactly when the vendor is
    PostgreSQL with [server_version >= 90400] or CockroachDB with
    [server_version >= 220200]; in every other case it uses the cast
    [::regtype]. *)
Theorem to_regtype_used_iff (conn : BaseConnection) :
  (TypeInfo._get_info_query conn = TypeInfo.info_query "to_regtype(%(name)s)"
   ↔ (vendor (info conn) = "PostgreSQL" ∧ (90400 ≤ server_version (info conn))%Z)
     ∨ (vendor (info conn) = "CockroachDB"
        ∧ (220200 ≤ server_version (info conn))%Z))
  ∧ (TypeInfo._get_info_query conn = TypeInfo.info_query "%(name)s::regtype"
     ↔ ¬ ((vendor (info conn) = "PostgreSQL"
           ∧ (90400 ≤ server_version (info conn))%Z)
          ∨ (vendor (info conn) = "CockroachDB"
             ∧ (220200 ≤ server_version (info conn))%Z))).
Proof.
  assert (Hne : TypeInfo.info_query "to_regtype(%(name)s)"
                ≠ TypeInfo.info_query "%(name)s::regtype")
    by (vm_compute; discriminate).
  rewrite <- has_to_regtype_function_iff.
  unfold TypeInfo._get_info_query, TypeInfo._to_regtype.
  destruct (TypeInfo._has_to_regtype_function conn).
  - split; split; done.
  - split; split; done.
Qed.

(** ** Registry operations as heap transformers *)

Section RegistryFacts.

Implicit Types (h : Heap) (self info t : loc) (r : TypesRegistry)
  (d : gmap pyval loc) (i : TypeInfo) (key : pyval).

Lemma bind_ok {A B} (m : M A) (f : A → M B) h (a : A) h' :
  m h = (Ok a, h') → (m ≫= f) h = f a h'.
Proof. intros Hm. unfold mbind, M_bind. by rewrite Hm. Qed.

Lemma heap_set_dict_twice l d d' h :
  heap_set_dict l d' (heap_set_dict l d h) = heap_set_dict l d' h.
Proof. unfold heap_set_dict; simpl. by rewrite insert_insert_eq. Qed.

Lemma registry_dict_spec h self r d :
  registries h !! self = Some r → dicts h !! _registry r = Some d →
  registry_dict self h = (Ok d, h).
Proof. intros Hr Hd. unfold_M. by rewrite Hr, Hd. Qed.

Lemma registry_setitem_spec h self r d key t :
  registries h !! self = Some r → dicts h !! _registry r = Some d →
  registry_setitem self key t h
  = (Ok (), heap_set_dict (_registry r) (<[key := t]> d) h).
Proof. intros Hr Hd. unfold_M. by rewrite Hr, Hd. Qed.

Lemma clear_spec h self :
  TypesRegistry.clear self h
  = (Ok (),
     heap_set_registry self {| _registry := next_loc h; _own_state := true |}
       (heap_set_dict (next_loc h) ∅ (heap_alloc h))).
Proof. reflexivity. Qed.

Lemma init_empty_spec h :
  TypesRegistry.__init__ None h
  = (Ok (next_loc h),
     heap_set_registry (next_loc h)
       {| _registry := S (next_loc h); _own_state := true |}
       (heap_set_dict (S (next_loc h)) ∅ (heap_alloc (heap_alloc h)))).
Proof. reflexivity. Qed.

Lemma init_template_spec h t r :
  registries h !! t = Some r →
  TypesRegistry.__init__ (Some t) h
  = (Ok (next_loc h),
     heap_set_registry t {| _registry := _registry r; _own_state := false |}
       (heap_set_registry (next_loc h)
          {| _registry := _registry r; _own_state := false |}
          (heap_alloc h))).
Proof.
  intros Hr. unfold TypesRegistry.__init__. unfold_M. simpl. rewrite Hr. simpl.
  destruct (decide (next_loc h = t)) as [-> | Hne].
  - by rewrite lookup_insert_eq.
  - by rewrite lookup_insert_ne, Hr.
Qed.

Lemma ensure_own_state_owned h self r :
  registries h !! self = Some r → _own_state r = true →
  TypesRegistry._ensure_own_state self h = (Ok (), h).
Proof.
  intros Hr Hown. unfold TypesRegistry._ensure_own_state. unfold_M.
  by rewrite Hr, Hown.
Qed.

Lemma ensure_own_state_shared h self r d :
  registries h !! self = Some r → _own_state r = false →
  dicts h !! _registry r = Some d →
  TypesRegistry._ensure_own_state self h
  = (Ok (),
     heap_set_registry self {| _registry := next_loc h; _own_state := true |}
       (heap_set_dict (next_loc h) d (heap_alloc h))).
Proof.
  intros Hr Hown Hd. unfold TypesRegistry._ensure_own_state. unfold_M.
  by rewrite Hr, Hown, Hd.
Qed.

(** The stores of [add], once the registry owns its dict. *)
Lemma add_owned_spec h self r d info i :
  registries h !! self = Some r → _own_state r = true →
  dicts h !! _registry r = Some d → objects h !! info = Some i →
  TypesRegistry.add self info h
  = (Ok (), heap_set_dict (_registry r) (add_index i info d) h).
Proof.
  intros Hr Hown Hd Hi. unfold TypesRegistry.add.
  unfold mbind at 1, M_bind at 1.
  rewrite (ensure_own_state_owned h self r) by done.
  unfold mbind at 1, M_bind at 1. unfold read_info at 1. rewrite Hi.
  unfold add_index.
  set (d1 := if negb (Z.eqb (oid i) 0) then <[PInt (oid i) := info]> d else d).
  set (d2 := if negb (Z.eqb (array_oid i) 0)
             then <[PInt (array_oid i) := info]> d1 else d1).
  set (d3 := <[PStr (name i) := info]> d2).
  assert (Hset : ∀ d' key, registry_setitem self key info
                              (heap_set_dict (_registry r) d' h)
                 = (Ok (), heap_set_dict (_registry r) (<[key := info]> d') h)).
  { intros d' key.
    rewrite (registry_setitem_spec _ self r d') by (simpl; by simplify_map_eq).
    by rewrite heap_set_dict_twice. }
  assert (Hid : heap_set_dict (_registry r) d h = h).
  { unfold heap_set_dict. destruct h; simpl in *. f_equal. by apply insert_id. }
  rewrite <- Hid at 1.
  assert (H1 : (if negb (Z.eqb (oid i) 0)
                then registry_setitem self (PInt (oid i)) info
                else mret ()) (heap_set_dict (_registry r) d h)
               = (Ok (), heap_set_dict (_registry r) d1 h)).
  { subst d1. destruct (negb (Z.eqb (oid i) 0)); [apply Hset | done]. }
  unfold mbind at 1, M_bind at 1. rewrite H1.
  assert (H2 : (if negb (Z.eqb (array_oid i) 0)
                then registry_setitem self (PInt (array_oid i)) info
                else mret ()) (heap_set_dict (_registry r) d1 h)
               = (Ok (), heap_set_dict (_registry r) d2 h)).
  { subst d2. destruct (negb (Z.eqb (array_oid i) 0)); [apply Hset | done]. }
  unfold mbind at 1, M_bind at 1. rewrite H2.
  unfold mbind at 1, M_bind at 1. rewrite Hset. fold d3.
  unfold mbind at 1, M_bind at 1.
  rewrite (registry_dict_spec _ self r d3) by (simpl; by simplify_map_eq).
  unfold mbind at 1, M_bind at 1.
  destruct (negb (String.eqb (regtype i) "")
            && negb (bool_decide (is_Some (d3 !! PStr (regtype i))))).
  - by rewrite Hset.
  - done.
Qed.

(** [add] on a registry that shares its dict: the dict is copied to a
    new object, which receives the stores; the shared dict is not
    written. *)
Lemma add_shared_spec h self r d info i :
  registries h !! self = Some r → _own_state r = false →
  dicts h !! _registry r = Some d → objects h !! info = Some i →
  TypesRegistry.add self info h
  = (Ok (),
     heap_set_dict (next_loc h) (add_index i info d)
       (heap_set_registry self
          {| _registry := next_loc h; _own_state := true |}
          (heap_set_dict (next_loc h) d (heap_alloc h)))).
Proof.
  intros Hr Hown Hd Hi.
  set (h' := heap_set_registry self
               {| _registry := next_loc h; _own_state := true |}
               (heap_set_dict (next_loc h) d (heap_alloc h))).
  assert (Hr' : registries h' !! self
                = Some {| _registry := next_loc h; _own_state := true |})
    by (simpl; by simplify_map_eq).
  assert (Hstep : TypesRegistry.add self info h = TypesRegistry.add self info h').
  { unfold TypesRegistry.add.
    rewrite (bind_ok _ _ h () h')
      by (by apply (ensure_own_state_shared h self r d)).
    by rewrite (bind_ok _ _ h' () h')
      by (by apply (ensure_own_state_owned h' self _ Hr')). }
  rewrite Hstep.
  rewrite (add_owned_spec h' self _ d info i Hr'); try done.
  simpl. by simplify_map_eq.
Qed.

(** *** Lookups: they leave the heap as it is *)

Lemma getitem_other h self tn :
  TypesRegistry.__getitem__ self (POther tn) h
  = (Raise (TypeError ("the key must be an oid or a name, got <class '"
                       ++ tn ++ "'>")), h).
Proof. reflexivity. Qed.

Lemma getitem_spec h self r d key :
  registries h !! self = Some r → dicts h !! _registry r = Some d →
  (∀ tn, key ≠ POther tn) →
  TypesRegistry.__getitem__ self key h
  = (match d !! normalize_key key with
     | Some t => Ok t
     | None => Raise (KeyError (normalize_key key))
     end, h).
Proof.
  intros Hr Hd Hkey. unfold TypesRegistry.__getitem__.
  destruct key as [s | z | items | tn]; [| | | by destruct (Hkey tn)];
    unfold mbind at 1, M_bind at 1; simpl;
    unfold mbind at 1, M_bind at 1;
    rewrite (registry_dict_spec h self r d) by done;
    by repeat case_match.
Qed.

Lemma getitem_heap h self key : snd (TypesRegistry.__getitem__ self key h) = h.
Proof.
  unfold TypesRegistry.__getitem__. unfold_M.
  destruct key; simpl; repeat case_match; by simplify_eq.
Qed.

Lemma get_spec h self key :
  TypesRegistry.get self key h
  = (match fst (TypesRegistry.__getitem__ self key h) with
     | Ok t => Ok (Some t)
     | Raise e => if isinstance_exn e "KeyError" then Ok None else Raise e
     | Stuck => Stuck
     end, h).
Proof.
  unfold TypesRegistry.get, try_except. unfold mbind at 1, M_bind at 1.
  pose proof (getitem_heap h self key) as Hh.
  destruct (TypesRegistry.__getitem__ self key h) as [[t | e | ] h1];
    simpl in *; subst h1; [done | | done].
  by destruct (isinstance_exn e "KeyError").
Qed.

Lemma get_oid_spec h self s :
  TypesRegistry.get_oid self (PStr s) h
  = (match fst (TypesRegistry.__getitem__ self (PStr s) h) with
     | Ok t =>
         match objects h !! t with
         | Some i => Ok (if endswith s "[]" then array_oid i else oid i)
         | None => Stuck
         end
     | Raise e => Raise e
     | Stuck => Stuck
     end, h).
Proof.
  unfold TypesRegistry.get_oid. unfold mbind at 1, M_bind at 1.
  pose proof (getitem_heap h self (PStr s)) as Hh.
  destruct (TypesRegistry.__getitem__ self (PStr s) h) as [[t | e | ] h1];
    simpl in *; subst h1; [| done | done].
  unfold_M. by destruct (objects h !! t).
Qed.

Lemma bind_fst {A B} (m : M A) (f : A → M B) h :
  snd (m h) = h →
  (m ≫= f) h
  = match fst (m h) with
    | Ok a => f a h
    | Raise e => (Raise e, h)
    | Stuck => (Stuck, h)
    end.
Proof.
  unfold mbind, M_bind. destruct (m h) as [[a | e | ] h1]; simpl; by intros ->.
Qed.

Lemma get_heap h self key : snd (TypesRegistry.get self key h) = h.
Proof. by rewrite get_spec. Qed.

Lemma get_by_subtype_spec h self cls key :
  TypesRegistry.get_by_subtype self cls key h
  = (match fst (TypesRegistry.get self key h) with
     | Ok None => Ok None
     | Ok (Some t) =>
         match objects h !! t with
         | Some i =>
             fst (TypesRegistry.get self (PTuple [AType cls; AInt (oid i)]) h)
         | None => Stuck
         end
     | Raise e => Raise e
     | Stuck => Stuck
     end, h).
Proof.
  unfold TypesRegistry.get_by_subtype.
  change (try_except _ "KeyError" (mret None)) with (TypesRegistry.get self key).
  rewrite bind_fst by apply get_heap.
  destruct (fst (TypesRegistry.get self key h)) as [[t |] | e | ]; try done.
  unfold mbind at 1, M_bind at 1, read_info at 1.
  destruct (objects h !! t) as [i |]; [| done].
  by rewrite get_spec.
Qed.

(** What a lookup sees of the heap: the registry's attributes and the
    dict they refer to. *)
Lemma getitem_view h self key :
  fst (TypesRegistry.__getitem__ self key h)
  = match key with
    | POther tn =>
        Raise (TypeError ("the key must be an oid or a name, got <class '"
                          ++ tn ++ "'>"))
    | _ =>
        match registries h !! self with
        | None => Stuck
        | Some r =>
            match dicts h !! _registry r with
            | None => Stuck
            | Some d =>
                match d !! normalize_key key with
                | Some t => Ok t
                | None => Raise (KeyError (normalize_key key))
                end
            end
        end
    end.
Proof.
  destruct key as [s | z | items | tn]; [| | | done].
  all: destruct (registries h !! self) as [r |] eqn:Hr;
    [destruct (dicts h !! _registry r) as [d |] eqn:Hd |].
  all: try (by rewrite (getitem_spec h self r d)).
  all: unfold TypesRegistry.__getitem__; unfold_M; simpl;
    rewrite Hr; try rewrite Hd; done.
Qed.

Lemma lookups_agree_same_view h h' self :
  registries h !! self = registries h' !! self →
  (∀ r, registries h !! self = Some r →
        dicts h !! _registry r = dicts h' !! _registry r) →
  objects h = objects h' →
  lookups_agree h h' self.
Proof.
  intros Hreg Hdict Hobj.
  assert (Hget : ∀ key, fst (TypesRegistry.__getitem__ self key h)
                        = fst (TypesRegistry.__getitem__ self key h')).
  { intros key. rewrite !getitem_view, <- Hreg.
    destruct key; try done;
      (destruct (registries h !! self) as [r |] eqn:Hr; [| done]);
      by rewrite <- (Hdict r eq_refl). }
  assert (Hget' : ∀ key, fst (TypesRegistry.get self key h)
                         = fst (TypesRegistry.get self key h')).
  { intros key. by rewrite !get_spec, Hget. }
  intros key. split; [apply Hget |]. split; [apply Hget' |]. split.
  - unfold TypesRegistry.get_oid.
    rewrite !bind_fst by apply getitem_heap. rewrite <- Hget.
    destruct (fst (TypesRegistry.__getitem__ self key h)) as [t | e | ];
      try done.
    destruct key; try done. unfold_M. rewrite <- Hobj.
    by destruct (objects h !! t).
  - intros cls. rewrite !get_by_subtype_spec, <- Hget', <- Hobj.
    destruct (fst (TypesRegistry.get self key h)) as [[t |] | e | ]; try done.
    simpl. destruct (objects h !! t); [apply Hget' | done].
Qed.

End RegistryFacts.

(** ** Copy-on-write *)

Section CopyOnWrite.

Implicit Types (h : Heap) (r : TypesRegistry) (d : gmap pyval loc).

Lemma wf_registry h a r :
  wf h → registries h !! a = Some r →
  (a < next_loc h)%nat ∧ (_registry r < next_loc h)%nat
  ∧ ∃ d, dicts h !! _registry r = Some d.
Proof.
  intros (Hregs & Hdicts & _) Hr. destruct (Hregs a r Hr) as (? & [d Hd]).
  split_and!; [done | apply (Hdicts _ _ Hd) | eauto].
Qed.


Lemma wf_object h x i :
  wf h → objects h !! x = Some i → name i ≠ "" → regtype i ≠ "".
Proof. intros (_ & _ & Hobjs) Hx Hname Hreg. by apply Hname, (Hobjs x i). Qed.

(** C1.  Let [B] be created with template [A].  Adding [x] to [B] leaves
    the outcome of every lookup on [A] as it was, and then adding [y] to
    [A] leaves the outcome of every lookup on [B] as it was: neither add
    makes its descriptor retrievable through the other registry. *)
Theorem copy_on_write_isolation h A rA x y ix iy :
  wf h → registries h !! A = Some rA →
  objects h !! x = Some ix → objects h !! y = Some iy →
  ∃ B h1 h2 h3,
    TypesRegistry.__init__ (Some A) h = (Ok B, h1)
    ∧ TypesRegistry.add B x h1 = (Ok (), h2)
    ∧ TypesRegistry.add A y h2 = (Ok (), h3)
    ∧ lookups_agree h1 h2 A
    ∧ lookups_agree h2 h3 B.
Proof.
  intros Hwf HA Hx Hy.
  destruct (wf_registry h A rA Hwf HA) as (HltA & HltD & dA & HdA).
  set (D := _registry rA) in *.
  set (B := next_loc h).
  assert (HAB : A ≠ B) by (unfold B; lia).
  set (h1 := heap_set_registry A {| _registry := D; _own_state := false |}
               (heap_set_registry B {| _registry := D; _own_state := false |}
                  (heap_alloc h))).
  assert (HB1 : registries h1 !! B
                = Some {| _registry := D; _own_state := false |})
    by (simpl; by simplify_map_eq).
  assert (HA1 : registries h1 !! A
                = Some {| _registry := D; _own_state := false |})
    by (simpl; by simplify_map_eq).
  set (h2 := heap_set_dict (next_loc h1) (add_index ix x dA)
               (heap_set_registry B
                  {| _registry := next_loc h1; _own_state := true |}
                  (heap_set_dict (next_loc h1) dA (heap_alloc h1)))).
  assert (HD2 : dicts h2 !! D = Some dA).
  { simpl. rewrite !lookup_insert_ne by (unfold B; lia). done. }
  assert (HA2 : registries h2 !! A
                = Some {| _registry := D; _own_state := false |})
    by (simpl; by simplify_map_eq).
  set (h3 := heap_set_dict (next_loc h2) (add_index iy y dA)
               (heap_set_registry A
                  {| _registry := next_loc h2; _own_state := true |}
                  (heap_set_dict (next_loc h2) dA (heap_alloc h2)))).
  exists B, h1, h2, h3. split_and!.
  - by apply init_template_spec.
  - by apply (add_shared_spec h1 B {| _registry := D; _own_state := false |}
                dA x ix).
  - by apply (add_shared_spec h2 A {| _registry := D; _own_state := false |}
                dA y iy).
  - apply lookups_agree_same_view; [by rewrite HA1, HA2 | | done].
    intros r Hr. rewrite HA1 in Hr. injection Hr as <-.
    change (dicts h !! D = dicts h2 !! D). by rewrite HD2.
  - apply lookups_agree_same_view; [| | done].
    + simpl. by rewrite (lookup_insert_ne _ A B).
    + intros r Hr. simpl in Hr. rewrite lookup_insert_eq in Hr.
      injection Hr as <-. simpl.
      rewrite !(lookup_insert_ne _ (S (S B))) by lia. done.
Qed.


End CopyOnWrite.

(** ** [wf] is an invariant of the operations *)

Section Invariant.

Implicit Types (h : Heap) (d : gmap pyval loc).

Lemma wf_empty : wf empty_heap.
Proof. split_and!; apply map_Forall_empty. Qed.

Lemma wf_alloc h : wf h → wf (heap_alloc h).
Proof.
  intros (Hregs & Hdicts & Hobjs). split_and!; simpl; [| | done].
  - intros r reg Hr. destruct (Hregs r reg Hr) as [? ?]. split; [lia | done].
  - intros l d Hl. pose proof (Hdicts l d Hl). simpl in *. lia.
Qed.

Lemma wf_set_dict h (l : loc) d :
  wf h → (l < next_loc h)%nat → wf (heap_set_dict l d h).
Proof.
  intros (Hregs & Hdicts & Hobjs) Hl. split_and!; simpl; [| | done].
  - intros r reg Hr. destruct (Hregs r reg Hr) as [? Hsome]. split; [done |].
    rewrite lookup_insert_is_Some.
    destruct (decide (l = _registry reg)); [by left | by right].
  - by apply map_Forall_insert_2.
Qed.

Lemma wf_set_registry h (l : loc) (reg : TypesRegistry) :
  wf h → (l < next_loc h)%nat → is_Some (dicts h !! _registry reg) →
  wf (heap_set_registry l reg h).
Proof.
  intros (Hregs & Hdicts & Hobjs) Hl Hsome. split_and!; simpl; [| done | done].
  by apply map_Forall_insert_2.
Qed.

Lemma wf_set_info h (l : loc) (i : TypeInfo) :
  wf h → (regtype i = "" → name i = "") → wf (heap_set_info l i h).
Proof.
  intros (Hregs & Hdicts & Hobjs) Hi. split_and!; simpl; [done | done |].
  by apply map_Forall_insert_2.
Qed.

Lemma wf_TypeInfo_init h (n : string) (o a : Z) (rt dl : string) :
  wf h → wf (snd (TypeInfo.__init__ n o a rt dl h)).
Proof.
  intros Hwf. simpl. apply wf_set_info; [by apply wf_alloc |]. simpl.
  destruct (String.eqb_spec rt ""); [done | by intros ->].
Qed.

Lemma wf_clear h (self : loc) :
  wf h → (self < next_loc h)%nat → wf (snd (TypesRegistry.clear self h)).
Proof.
  intros Hwf Hself. rewrite clear_spec. simpl.
  apply wf_set_registry; simpl; [| lia | by rewrite lookup_insert_eq].
  apply wf_set_dict; [by apply wf_alloc | simpl; lia].
Qed.

Lemma wf_registry_init_empty h : wf h → wf (snd (TypesRegistry.__init__ None h)).
Proof.
  intros Hwf. rewrite init_empty_spec. simpl.
  apply wf_set_registry; simpl; [| lia | by rewrite lookup_insert_eq].
  apply wf_set_dict; [by do 2 apply wf_alloc | simpl; lia].
Qed.

Lemma wf_registry_init_template h (t : loc) (rt : TypesRegistry) :
  wf h → registries h !! t = Some rt →
  wf (snd (TypesRegistry.__init__ (Some t) h)).
Proof.
  intros Hwf Ht. rewrite (init_template_spec h t rt Ht). simpl.
  destruct (wf_registry h t rt Hwf Ht) as (Hlt & _ & d & Hd).
  apply wf_set_registry; simpl; [| lia | by exists d].
  apply wf_set_registry; simpl; [by apply wf_alloc | lia | by exists d].
Qed.

Lemma wf_add h (self x : loc) (r : TypesRegistry) (i : TypeInfo) :
  wf h → registries h !! self = Some r → objects h !! x = Some i →
  wf (snd (TypesRegistry.add self x h)).
Proof.
  intros Hwf Hr Hx.
  destruct (wf_registry h self r Hwf Hr) as (Hlt & HltD & d & Hd).
  destruct (_own_state r) eqn:Hown.
  - rewrite (add_owned_spec h self r d x i) by done. simpl.
    by apply wf_set_dict.
  - rewrite (add_shared_spec h self r d x i) by done. simpl.
    apply wf_set_dict; [| simpl; lia].
    apply wf_set_registry; simpl; [| lia | by rewrite lookup_insert_eq].
    apply wf_set_dict; [by apply wf_alloc | simpl; lia].
Qed.

End Invariant.

(** ** The first mutation of a registry that shares its dict *)

Section Fork.

Implicit Types (h : Heap).

(** Deriving a registry from a template: both then refer to the
    template's dict and both are marked as not owning it. *)
Lemma init_template_shares h (A : loc) rA :
  wf h → registries h !! A = Some rA →
  ∃ B h1,
    TypesRegistry.__init__ (Some A) h = (Ok B, h1)
    ∧ wf h1 ∧ A ≠ B
    ∧ registries h1 !! A
      = Some {| _registry := _registry rA; _own_state := false |}
    ∧ registries h1 !! B
      = Some {| _registry := _registry rA; _own_state := false |}
    ∧ dicts h1 = dicts h.
Proof.
  intros Hwf HA.
  destruct (wf_registry h A rA Hwf HA) as (HltA & _ & _).
  assert (HAB : A ≠ next_loc h) by lia.
  eexists _, _. split; [by apply init_template_spec |].
  split_and!; try done.
  - pose proof (wf_registry_init_template h A rA Hwf HA) as Hwf'.
    by rewrite (init_template_spec h A rA HA) in Hwf'.
  - simpl. by rewrite lookup_insert_eq.
  - simpl. rewrite lookup_insert_ne by done. by rewrite lookup_insert_eq.
Qed.


End Fork.

(** ** The index after [add] *)

Section IndexFacts.

Implicit Types (h : Heap) (self x t : loc) (r : TypesRegistry)
  (d : gmap pyval loc) (i : TypeInfo).

Lemma add_index_int i x d (z : Z) :
  add_index i x d !! PInt z
  = if decide ((z = oid i ∧ oid i ≠ 0%Z) ∨ (z = array_oid i ∧ array_oid i ≠ 0%Z))
    then Some x else d !! PInt z.
Proof.
  unfold add_index.
  set (d1 := if negb (Z.eqb (oid i) 0) then <[PInt (oid i) := x]> d else d).
  set (d2 := if negb (Z.eqb (array_oid i) 0)
             then <[PInt (array_oid i) := x]> d1 else d1).
  assert (H1 : d1 !! PInt z
               = if decide (z = oid i ∧ oid i ≠ 0%Z) then Some x
                 else d !! PInt z).
  { subst d1. destruct (Z.eqb_spec (oid i) 0) as [Ho | Ho]; simpl.
    - rewrite decide_False; [done | by intros [_ ?]].
    - destruct (decide (z = oid i)) as [-> | Hz].
      + by rewrite lookup_insert_eq, decide_True.
      + rewrite lookup_insert_ne by congruence.
        rewrite decide_False; [done | by intros [? _]]. }
  assert (H2 : d2 !! PInt z
               = if decide (z = array_oid i ∧ array_oid i ≠ 0%Z) then Some x
                 else d1 !! PInt z).
  { subst d2. destruct (Z.eqb_spec (array_oid i) 0) as [Ha | Ha]; simpl.
    - rewrite decide_False; [done | by intros [_ ?]].
    - destruct (decide (z = array_oid i)) as [-> | Hz].
      + by rewrite lookup_insert_eq, decide_True.
      + rewrite lookup_insert_ne by congruence.
        rewrite decide_False; [done | by intros [? _]]. }
  assert (H3 : (if negb (String.eqb (regtype i) "")
                   && negb (bool_decide
                              (is_Some (<[PStr (name i) := x]> d2
                                        !! PStr (regtype i))))
                then <[PStr (regtype i) := x]> (<[PStr (name i) := x]> d2)
                else <[PStr (name i) := x]> d2) !! PInt z
               = d2 !! PInt z).
  { generalize d2. intros m.
    destruct (negb (String.eqb (regtype i) "") && _);
      by rewrite !lookup_insert_ne by congruence. }
  rewrite H3, H2, H1.
  destruct (decide (z = array_oid i ∧ array_oid i ≠ 0%Z)) as [Ha | Ha],
           (decide (z = oid i ∧ oid i ≠ 0%Z)) as [Ho | Ho];
    (rewrite decide_True by tauto) || (rewrite decide_False by tauto); done.
Qed.

Lemma add_index_name i x d : add_index i x d !! PStr (name i) = Some x.
Proof.
  unfold add_index.
  destruct (negb (String.eqb (regtype i) "") && _) eqn:Hc.
  - destruct (decide (regtype i = name i)) as [Heq | Hne].
    + rewrite Heq. by rewrite lookup_insert_eq.
    + rewrite lookup_insert_ne by congruence. by rewrite lookup_insert_eq.
  - by rewrite lookup_insert_eq.
Qed.

(** The binding of a string key other than the name: the regtype alias
    is stored only when that key is free. *)
Lemma add_index_str i x d (s : string) :
  s ≠ name i →
  add_index i x d !! PStr s
  = match d !! PStr s with
    | Some t => Some t
    | None => if decide (s = regtype i ∧ s ≠ "") then Some x else None
    end.
Proof.
  intros Hs. unfold add_index.
  set (d1 := if negb (Z.eqb (oid i) 0) then <[PInt (oid i) := x]> d else d).
  set (d2 := if negb (Z.eqb (array_oid i) 0)
             then <[PInt (array_oid i) := x]> d1 else d1).
  assert (H2 : ∀ s', d2 !! PStr s' = d !! PStr s').
  { intros s'. subst d2 d1. by repeat case_match; simplify_map_eq. }
  assert (H3 : <[PStr (name i) := x]> d2 !! PStr s = d !! PStr s).
  { rewrite lookup_insert_ne by congruence. apply H2. }
  destruct (String.eqb_spec (regtype i) "") as [He | He]; simpl.
  - rewrite H3. destruct (d !! PStr s); [done |].
    case_decide as Hc; [| done]. destruct Hc as [-> ?]. done.
  - case_bool_decide as Hb; simpl.
    + rewrite H3. destruct (d !! PStr s) eqn:Hd; [done |].
      case_decide as Hc; [| done]. destruct Hc as [-> _].
      rewrite lookup_insert_ne, H2, Hd in Hb by congruence. by destruct Hb.
    + destruct (decide (s = regtype i)) as [-> | Hne].
      * rewrite lookup_insert_eq.
        rewrite lookup_insert_ne, H2 in Hb by congruence.
        destruct (d !! PStr (regtype i)); [by destruct Hb; eauto |].
        by rewrite decide_True.
      * rewrite lookup_insert_ne, H3 by congruence.
        destruct (d !! PStr s); [done |]. rewrite decide_False; [done |].
        by intros [? _].
Qed.

(** After [add], the registry refers to a dict holding [add_index]. *)
Lemma add_own_storage h self r d x i :
  registries h !! self = Some r → dicts h !! _registry r = Some d →
  objects h !! x = Some i →
  ∃ h' r',
    TypesRegistry.add self x h = (Ok (), h')
    ∧ registries h' !! self = Some r'
    ∧ dicts h' !! _registry r' = Some (add_index i x d)
    ∧ objects h' = objects h.
Proof.
  intros Hr Hd Hx. destruct (_own_state r) eqn:Hown.
  - eexists _, r. split; [by apply (add_owned_spec h self r d x i) |].
    simpl. by simplify_map_eq.
  - eexists _, _. split; [by apply (add_shared_spec h self r d x i) |].
    simpl. split; [apply lookup_insert_eq |]. simpl. by simplify_map_eq.
Qed.

End IndexFacts.

(** ** Lookups after [add] *)

Section LookupFacts.

Implicit Types (h : Heap) (self x t : loc) (r : TypesRegistry)
  (d : gmap pyval loc) (i : TypeInfo).

Lemma own_storage_spec h self r d :
  registries h !! self = Some r → dicts h !! _registry r = Some d →
  own_storage h self = Some d.
Proof. intros Hr Hd. unfold own_storage. by rewrite Hr. Qed.

Lemma normalize_key_plain (s : string) :
  endswith s "[]" = false → normalize_key (PStr s) = PStr s.
Proof. intros H. simpl. by rewrite H. Qed.

Lemma normalize_key_array (s : string) :
  normalize_key (PStr (s ++ "[]")) = PStr s.
Proof.
  simpl. rewrite endswith_app. f_equal. apply (slice_to_neg_app s "[]").
Qed.

(** Lookup of a key that the index binds. *)
Lemma getitem_bound h self r d (key : pyval) t :
  registries h !! self = Some r → dicts h !! _registry r = Some d →
  (∀ tn, key ≠ POther tn) → d !! normalize_key key = Some t →
  TypesRegistry.__getitem__ self key h = (Ok t, h)
  ∧ TypesRegistry.get self key h = (Ok (Some t), h).
Proof.
  intros Hr Hd Hkey Ht.
  assert (Hg : TypesRegistry.__getitem__ self key h = (Ok t, h))
    by (by rewrite (getitem_spec h self r d), Ht).
  split; [done |]. by rewrite get_spec, Hg.
Qed.

(** Lookup of a key that the index does not bind. *)
Lemma getitem_unbound h self r d (key : pyval) :
  registries h !! self = Some r → dicts h !! _registry r = Some d →
  (∀ tn, key ≠ POther tn) → d !! normalize_key key = None →
  TypesRegistry.__getitem__ self key h = (Raise (KeyError (normalize_key key)), h)
  ∧ TypesRegistry.get self key h = (Ok None, h).
Proof.
  intros Hr Hd Hkey Ht.
  assert (Hg : TypesRegistry.__getitem__ self key h
               = (Raise (KeyError (normalize_key key)), h))
    by (by rewrite (getitem_spec h self r d), Ht).
  split; [done |]. by rewrite get_spec, Hg.
Qed.

(** C2 (amended).  After [add(d)] for a descriptor with nonzero [oid],
    nonzero [array_oid] and non-empty name, the lookups by [d.oid] and by
    [d.array_oid] return [d] itself; the lookup by [d.name] returns [d]
    itself when the name does not end with the array marker; the lookup by
    [d.regtype] returns [d] itself when the regtype does not end with the
    array marker and was not, before the add, a key bound to another
    descriptor (it is the name, or it was free, or it was bound to [d]). *)
Theorem add_then_lookup h self r x i :
  wf h → registries h !! self = Some r → objects h !! x = Some i →
  oid i ≠ 0%Z → array_oid i ≠ 0%Z → name i ≠ "" →
  ∃ h' d,
    own_storage h self = Some d
    ∧ TypesRegistry.add self x h = (Ok (), h')
    ∧ TypesRegistry.__getitem__ self (PInt (oid i)) h' = (Ok x, h')
    ∧ TypesRegistry.__getitem__ self (PInt (array_oid i)) h' = (Ok x, h')
    ∧ (endswith (name i) "[]" = false →
       TypesRegistry.__getitem__ self (PStr (name i)) h' = (Ok x, h'))
    ∧ (endswith (regtype i) "[]" = false →
       regtype i = name i ∨ d !! PStr (regtype i) = None
       ∨ d !! PStr (regtype i) = Some x →
       TypesRegistry.__getitem__ self (PStr (regtype i)) h' = (Ok x, h')).
Proof.
  intros Hwf Hr Hx Hoid Harr Hname.
  destruct (wf_registry h self r Hwf Hr) as (_ & _ & d & Hd).
  pose proof (wf_object h x i Hwf Hx Hname) as Hreg.
  destruct (add_own_storage h self r d x i Hr Hd Hx) as (h' & r' & Hadd & Hr' & Hd' & _).
  exists h', d. split; [by apply (own_storage_spec h self r) |].
  split; [done |]. split_and!.
  - apply (getitem_bound h' self r' _ _ x Hr' Hd'); [done |]. simpl.
    rewrite add_index_int, decide_True; [done | by left].
  - apply (getitem_bound h' self r' _ _ x Hr' Hd'); [done |]. simpl.
    rewrite add_index_int, decide_True; [done | by right].
  - intros Hends. apply (getitem_bound h' self r' _ _ x Hr' Hd'); [done |].
    rewrite normalize_key_plain by done. apply add_index_name.
  - intros Hends Hfree.
    apply (getitem_bound h' self r' _ _ x Hr' Hd'); [done |].
    rewrite normalize_key_plain by done.
    destruct (decide (regtype i = name i)) as [-> | Hne];
      [apply add_index_name |].
    rewrite add_index_str by done.
    destruct Hfree as [? | [-> | ->]]; [done | | done].
    by rewrite decide_True.
Qed.

(** Array-suffix normalization for any name without the array marker. *)
Lemma array_suffix_normalization h self r d x i (n : string) :
  registries h !! self = Some r → dicts h !! _registry r = Some d →
  objects h !! x = Some i → endswith n "[]" = false →
  d !! PStr n = Some x →
  TypesRegistry.__getitem__ self (PStr (n ++ "[]")) h = (Ok x, h)
  ∧ TypesRegistry.__getitem__ self (PStr n) h = (Ok x, h)
  ∧ TypesRegistry.get_oid self (PStr (n ++ "[]")) h = (Ok (array_oid i), h)
  ∧ TypesRegistry.get_oid self (PStr n) h = (Ok (oid i), h).
Proof.
  intros Hr Hd Hx Hn Hbound.
  assert (H1 : TypesRegistry.__getitem__ self (PStr (n ++ "[]")) h = (Ok x, h)).
  { apply (getitem_bound h self r d); [done | done | done |].
    by rewrite normalize_key_array. }
  assert (H2 : TypesRegistry.__getitem__ self (PStr n) h = (Ok x, h)).
  { apply (getitem_bound h self r d); [done | done | done |].
    by rewrite normalize_key_plain. }
  split_and!; [done | done | |].
  - by rewrite get_oid_spec, H1, endswith_app; simpl; rewrite Hx.
  - by rewrite get_oid_spec, H2, Hn; simpl; rewrite Hx.
Qed.

(** C6.  For a descriptor named ["foo"] that the registry binds under its
    name, the key ["foo[]"] yields the same descriptor as ["foo"],
    [get_oid("foo[]")] is its [array_oid] and [get_oid("foo")] its [oid]. *)
Theorem array_suffix_foo h self r d x i :
  registries h !! self = Some r → dicts h !! _registry r = Some d →
  objects h !! x = Some i → name i = "foo" →
  d !! PStr (name i) = Some x →
  TypesRegistry.__getitem__ self (PStr "foo[]") h = (Ok x, h)
  ∧ TypesRegistry.__getitem__ self (PStr "foo") h = (Ok x, h)
  ∧ TypesRegistry.get_oid self (PStr "foo[]") h = (Ok (array_oid i), h)
  ∧ TypesRegistry.get_oid self (PStr "foo") h = (Ok (oid i), h).
Proof.
  intros Hr Hd Hx Hname Hbound. rewrite Hname in Hbound.
  by apply (array_suffix_normalization h self r d x i "foo").
Qed.

(** C7 (amended).  Two descriptors are added in sequence.  After the
    first add its name is a key.  If the regtype of the second is a key
    already bound (such as the name of the first) and is not the second's
    own name, the second add leaves that key bound as it was, and a lookup
    of that key (when it does not end with the array marker) still returns
    the earlier descriptor.  The second's name key is always bound to it,
    and its [oid] and [array_oid] keys are bound to it, over any earlier
    binding, whenever they are nonzero. *)
Theorem regtype_does_not_override h self r d0 (d1 d2 : loc) i1 i2 :
  registries h !! self = Some r → dicts h !! _registry r = Some d0 →
  objects h !! d1 = Some i1 → objects h !! d2 = Some i2 →
  ∃ h1 h2 idx1 idx2,
    TypesRegistry.add self d1 h = (Ok (), h1)
    ∧ own_storage h1 self = Some idx1
    ∧ TypesRegistry.add self d2 h1 = (Ok (), h2)
    ∧ own_storage h2 self = Some idx2
    ∧ idx1 !! PStr (name i1) = Some d1
    ∧ (∀ t, idx1 !! PStr (regtype i2) = Some t → regtype i2 ≠ name i2 →
         idx2 !! PStr (regtype i2) = Some t
         ∧ (endswith (regtype i2) "[]" = false →
            TypesRegistry.__getitem__ self (PStr (regtype i2)) h2 = (Ok t, h2)))
    ∧ idx2 !! PStr (name i2) = Some d2
    ∧ (oid i2 ≠ 0%Z → idx2 !! PInt (oid i2) = Some d2)
    ∧ (array_oid i2 ≠ 0%Z → idx2 !! PInt (array_oid i2) = Some d2).
Proof.
  intros Hr Hd0 H1 H2.
  destruct (add_own_storage h self r d0 d1 i1 Hr Hd0 H1)
    as (h1 & r1 & Hadd1 & Hr1 & Hidx1 & Hobj1).
  assert (H2' : objects h1 !! d2 = Some i2) by (by rewrite Hobj1).
  destruct (add_own_storage h1 self r1 _ d2 i2 Hr1 Hidx1 H2')
    as (h2 & r2 & Hadd2 & Hr2 & Hidx2 & Hobj2).
  exists h1, h2, (add_index i1 d1 d0), (add_index i2 d2 (add_index i1 d1 d0)).
  split_and!; try done.
  - by apply (own_storage_spec h1 self r1).
  - by apply (own_storage_spec h2 self r2).
  - apply add_index_name.
  - intros t Ht Hne.
    assert (Hkeep : add_index i2 d2 (add_index i1 d1 d0) !! PStr (regtype i2)
                    = Some t) by (by rewrite add_index_str, Ht).
    split; [done |]. intros Hends.
    apply (getitem_bound h2 self r2 _ _ t Hr2 Hidx2); [done |].
    by rewrite normalize_key_plain.
  - apply add_index_name.
  - intros Ho. rewrite add_index_int, decide_True; [done | by left].
  - intros Ha. rewrite add_index_int, decide_True; [done | by right].
Qed.

(** C8 (amended).  A key that is neither a string, nor an integer, nor a
    tuple makes every lookup operation raise [TypeError] at once, whatever
    the registry holds; that error is not a [KeyError], so [get] does not
    turn it into [None].  A tuple of any length (its members strings,
    integers or class objects) passes the type test: its lookup depends on
    the index alone and, when the index does not bind it, is a miss
    ([KeyError] from indexing, [None] from [get]). *)
Theorem unsupported_key_type_error h self (tn : string) (items : list atom) :
  let e := TypeError ("the key must be an oid or a name, got <class '"
                      ++ tn ++ "'>") in
  TypesRegistry.__getitem__ self (POther tn) h = (Raise e, h)
  ∧ TypesRegistry.get self (POther tn) h = (Raise e, h)
  ∧ TypesRegistry.get_oid self (POther tn) h = (Raise e, h)
  ∧ (∀ cls, TypesRegistry.get_by_subtype self cls (POther tn) h = (Raise e, h))
  ∧ isinstance_exn e "KeyError" = false
  ∧ fst (TypesRegistry.__getitem__ self (PTuple items) h)
    = match own_storage h self with
      | None => Stuck
      | Some d =>
          match d !! PTuple items with
          | Some t => Ok t
          | None => Raise (KeyError (PTuple items))
          end
      end
  ∧ fst (TypesRegistry.get self (PTuple items) h)
    = match own_storage h self with
      | None => Stuck
      | Some d => Ok (d !! PTuple items)
      end.
Proof.
  simpl. split_and!; try done.
  - rewrite getitem_view. unfold own_storage.
    destruct (registries h !! self) as [r |]; [| done]. simpl.
    by destruct (dicts h !! _registry r).
  - rewrite get_spec, getitem_view. unfold own_storage. simpl.
    destruct (registries h !! self) as [r |]; [| done]. simpl.
    destruct (dicts h !! _registry r) as [d |]; [| done].
    by destruct (d !! PTuple items).
Qed.

(** C10 (amended).  For a descriptor whose name ends with ["[]"], after
    [add] a lookup by that name, through indexing or [get], targets the
    base name (the name without the marker).  If the base name was bound
    before the add, the lookup returns the descriptor it was bound to;
    if it was free and is the descriptor's regtype, the add has bound it
    to the descriptor, which the lookup then returns; if it was free and
    is not the regtype, indexing raises [KeyError] and [get] returns
    [None]. *)
Theorem array_named_lookup h self r x i :
  wf h → registries h !! self = Some r → objects h !! x = Some i →
  endswith (name i) "[]" = true →
  ∃ h' d base,
    own_storage h self = Some d
    ∧ TypesRegistry.add self x h = (Ok (), h')
    ∧ name i = base ++ "[]"
    ∧ (∀ t, d !! PStr base = Some t →
         TypesRegistry.__getitem__ self (PStr (name i)) h' = (Ok t, h')
         ∧ TypesRegistry.get self (PStr (name i)) h' = (Ok (Some t), h'))
    ∧ (d !! PStr base = None → regtype i = base →
         TypesRegistry.__getitem__ self (PStr (name i)) h' = (Ok x, h')
         ∧ TypesRegistry.get self (PStr (name i)) h' = (Ok (Some x), h'))
    ∧ (d !! PStr base = None → regtype i ≠ base →
         TypesRegistry.__getitem__ self (PStr (name i)) h'
         = (Raise (KeyError (PStr base)), h')
         ∧ TypesRegistry.get self (PStr (name i)) h' = (Ok None, h')).
Proof.
  intros Hwf Hr Hx Hends.
  destruct (wf_registry h self r Hwf Hr) as (_ & _ & d & Hd).
  destruct (add_own_storage h self r d x i Hr Hd Hx)
    as (h' & r' & Hadd & Hr' & Hd' & _).
  set (base := slice_to_neg 2 (name i)).
  assert (Hname : name i = base ++ "[]") by apply (endswith_inv _ "[]" Hends).
  assert (Hbase : base ≠ name i) by (by apply slice_array_marker_ne).
  assert (Hnorm : normalize_key (PStr (name i)) = PStr base)
    by (simpl; by rewrite Hends).
  assert (Hnonempty : name i ≠ "").
  { intros He. rewrite He in Hends. discriminate. }
  pose proof (wf_object h x i Hwf Hx Hnonempty) as Hreg.
  exists h', d, base. split; [by apply (own_storage_spec h self r) |].
  split; [done |]. split; [done |]. split_and!.
  - intros t Ht. apply (getitem_bound h' self r' _ _ t Hr' Hd'); [done |].
    by rewrite Hnorm, add_index_str, Ht.
  - intros Hfree Halias.
    apply (getitem_bound h' self r' _ _ x Hr' Hd'); [done |].
    rewrite Hnorm, add_index_str, Hfree by done.
    rewrite decide_True; [done |]. split; [done | congruence].
  - intros Hfree Hnot.
    rewrite <- Hnorm.
    apply (getitem_unbound h' self r' _ _ Hr' Hd'); [done |].
    rewrite Hnorm, add_index_str, Hfree by done.
    rewrite decide_False; [done |]. by intros [? _].
Qed.

End LookupFacts.

(** ** Instances on the example heap, and the cases that the amended
    statements exclude *)

Lemma wf_example_heap : wf example_heap.
Proof. apply (bool_decide_unpack _). vm_compute. exact I. Qed.

Lemma copy_on_write_isolation_witness :
  wf example_heap
  ∧ ∃ B h1 h2 h3,
      TypesRegistry.__init__ (Some 0%nat) example_heap = (Ok B, h1)
      ∧ TypesRegistry.add B 3%nat h1 = (Ok (), h2)
      ∧ TypesRegistry.add 0%nat 5%nat h2 = (Ok (), h3)
      ∧ lookups_agree h1 h2 0%nat
      ∧ lookups_agree h2 h3 B.
Proof.
  assert (Hwf : wf example_heap)
    by (apply (bool_decide_unpack _); vm_compute; exact I).
  split; [exact Hwf |].
  eapply (copy_on_write_isolation example_heap 0%nat);
    [exact Hwf | reflexivity | reflexivity | reflexivity].
Defined.

Lemma fetch_by_row_count_witness :
  TypeInfo.fetch (λ (_ : unit) _, "") (λ _ _ _, QRows [int4_row]) pg15
    (NameStr "int4") empty_heap
  = (Ok (Some 0%nat),
     heap_set_info 0%nat
       {| name := "int4"; oid := 23; array_oid := 1007; regtype := "integer";
          delimiter := "," |}
       (heap_alloc empty_heap)).
Proof.
  exact (fetch_by_row_count (λ (_ : unit) _, "") (λ _ _ _, QRows [int4_row])
           pg15 (NameStr "int4") [int4_row] empty_heap
           (or_introl eq_refl) eq_refl).
Defined.

Lemma fetch_intercepts_only_UndefinedObject_witness :
  TypeInfo.fetch (λ (_ : unit) _, "")
    (λ _ _ _, QRaise (Exn "UndefinedObject"
                        ["ProgrammingError"; "DatabaseError"; "Error";
                         "Exception"; "BaseException"]
                        (PStr "type does not exist")))
    pg15 (NameStr "nosuchtype") empty_heap
  = (Ok None, empty_heap).
Proof.
  exact (fetch_intercepts_only_UndefinedObject (λ (_ : unit) _, "")
           (λ _ _ _, QRaise (Exn "UndefinedObject"
                               ["ProgrammingError"; "DatabaseError"; "Error";
                                "Exception"; "BaseException"]
                               (PStr "type does not exist")))
           pg15 (NameStr "nosuchtype") _ empty_heap
           (or_introl eq_refl) eq_refl).
Defined.


Lemma add_then_lookup_witness :
  ∃ h' d,
    own_storage example_heap 0%nat = Some d
    ∧ TypesRegistry.add 0%nat 5%nat example_heap = (Ok (), h')
    ∧ TypesRegistry.__getitem__ 0%nat (PInt 23) h' = (Ok 5%nat, h')
    ∧ TypesRegistry.__getitem__ 0%nat (PInt 1007) h' = (Ok 5%nat, h')
    ∧ (endswith "int4" "[]" = false →
       TypesRegistry.__getitem__ 0%nat (PStr "int4") h' = (Ok 5%nat, h'))
    ∧ (endswith "integer" "[]" = false →
       "integer" = "int4" ∨ d !! PStr "integer" = None
       ∨ d !! PStr "integer" = Some 5%nat →
       TypesRegistry.__getitem__ 0%nat (PStr "integer") h' = (Ok 5%nat, h')).
Proof.
  eapply (add_then_lookup example_heap 0%nat _ 5%nat
            {| name := "int4"; oid := 23; array_oid := 1007;
               regtype := "integer"; delimiter := "," |});
    [apply (bool_decide_unpack _); vm_compute; exact I
    | reflexivity | reflexivity | discriminate | discriminate | discriminate].
Defined.

Lemma array_suffix_foo_witness :
  TypesRegistry.__getitem__ 0%nat (PStr "foo[]") example_heap
  = (Ok 2%nat, example_heap)
  ∧ TypesRegistry.__getitem__ 0%nat (PStr "foo") example_heap
    = (Ok 2%nat, example_heap)
  ∧ TypesRegistry.get_oid 0%nat (PStr "foo[]") example_heap
    = (Ok 2%Z, example_heap)
  ∧ TypesRegistry.get_oid 0%nat (PStr "foo") example_heap
    = (Ok 1%Z, example_heap).
Proof.
  eapply (array_suffix_foo example_heap 0%nat _ _ 2%nat
            {| name := "foo"; oid := 1; array_oid := 2; regtype := "foo";
               delimiter := "," |});
    [reflexivity | reflexivity | reflexivity | reflexivity
    | vm_compute; reflexivity].
Defined.

Lemma regtype_does_not_override_witness :
  ∃ h1 h2 idx1 idx2,
    TypesRegistry.add 0%nat 2%nat example_heap = (Ok (), h1)
    ∧ own_storage h1 0%nat = Some idx1
    ∧ TypesRegistry.add 0%nat 3%nat h1 = (Ok (), h2)
    ∧ own_storage h2 0%nat = Some idx2
    ∧ idx1 !! PStr "foo" = Some 2%nat
    ∧ (∀ t, idx1 !! PStr "foo" = Some t → "foo" ≠ "bar" →
         idx2 !! PStr "foo" = Some t
         ∧ (endswith "foo" "[]" = false →
            TypesRegistry.__getitem__ 0%nat (PStr "foo") h2 = (Ok t, h2)))
    ∧ idx2 !! PStr "bar" = Some 3%nat
    ∧ (3%Z ≠ 0%Z → idx2 !! PInt 3 = Some 3%nat)
    ∧ (4%Z ≠ 0%Z → idx2 !! PInt 4 = Some 3%nat).
Proof.
  eapply (regtype_does_not_override example_heap 0%nat _ _ 2%nat 3%nat
            {| name := "foo"; oid := 1; array_oid := 2; regtype := "foo";
               delimiter := "," |}
            {| name := "bar"; oid := 3; array_oid := 4; regtype := "foo";
               delimiter := "," |});
    reflexivity.
Defined.

Lemma array_named_lookup_witness :
  ∃ h' d base,
    own_storage example_heap 0%nat = Some d
    ∧ TypesRegistry.add 0%nat 4%nat example_heap = (Ok (), h')
    ∧ "baz[]" = base ++ "[]"
    ∧ (∀ t, d !! PStr base = Some t →
         TypesRegistry.__getitem__ 0%nat (PStr "baz[]") h' = (Ok t, h')
         ∧ TypesRegistry.get 0%nat (PStr "baz[]") h' = (Ok (Some t), h'))
    ∧ (d !! PStr base = None → "baz[]" = base →
         TypesRegistry.__getitem__ 0%nat (PStr "baz[]") h' = (Ok 4%nat, h')
         ∧ TypesRegistry.get 0%nat (PStr "baz[]") h' = (Ok (Some 4%nat), h'))
    ∧ (d !! PStr base = None → "baz[]" ≠ base →
         TypesRegistry.__getitem__ 0%nat (PStr "baz[]") h'
         = (Raise (KeyError (PStr base)), h')
         ∧ TypesRegistry.get 0%nat (PStr "baz[]") h' = (Ok None, h')).
Proof.
  eapply (array_named_lookup example_heap 0%nat _ 4%nat
            {| name := "baz[]"; oid := 5; array_oid := 6; regtype := "baz[]";
               delimiter := "," |});
    [apply (bool_decide_unpack _); vm_compute; exact I
    | reflexivity | reflexivity | reflexivity].
Defined.

(** C2, as stated, fails.  [bar = TypeInfo("bar", 3, 4, regtype="foo")] is
    added to a registry where ["foo"] is the name of [foo]: the lookup by
    [bar.regtype] returns [foo], another object.  [baz =
    TypeInfo("baz[]", 5, 6)] is added: the lookup by [baz.name] raises
    [KeyError]. *)
Lemma roundtrip_counterexample :
  fst (roundtrip_program empty_heap)
  = Ok (2%nat, 3%nat, 4%nat, Ok 2%nat, Raise (KeyError (PStr "baz"))).
Proof. vm_compute. reflexivity. Qed.

(** C7, as stated, fails.  The second descriptor, [TypeInfo("foo", 0, 4)],
    has the regtype ["foo"], a key bound to the first; after its add that
    key is bound to the second, and its [oid] key [0] is not bound. *)
Lemma same_name_counterexample :
  fst (same_name_program empty_heap)
  = Ok (2%nat, 3%nat, Some 3%nat, None, Some 3%nat).
Proof. vm_compute. reflexivity. Qed.

(** C8, as stated, fails.  The tuples [(1, 2, 3)] and [()] are not
    (kind, oid) pairs, yet indexing raises [KeyError] and [get] returns
    [None] for them. *)
Lemma tuple_key_counterexample :
  fst (tuple_key_program empty_heap)
  = Ok (Raise (KeyError (PTuple [AInt 1; AInt 2; AInt 3])), None,
        Raise (KeyError (PTuple [])), None).
Proof. vm_compute. reflexivity. Qed.


(** C10, as stated, fails.  [TypeInfo("bar[]", 3, 4, regtype="bar")] is
    retrieved by its own name, through indexing and through [get]: the
    base name is its regtype alias. *)
Lemma array_named_counterexample :
  fst (array_named_program empty_heap) = Ok (2%nat, Ok 2%nat, Some 2%nat).
Proof. vm_compute. reflexivity. Qed.

(** * Further properties of the registry and of fetch *)

(** ** Lookups *)

Section MoreLookups.

Implicit Types (h : Heap) (self t : loc) (r : TypesRegistry)
  (d : gmap pyval loc) (i : TypeInfo) (key : pyval).

(** The four possible outcomes of indexing. *)
Lemma getitem_cases h self key :
  (∃ t, fst (TypesRegistry.__getitem__ self key h) = Ok t)
  ∨ fst (TypesRegistry.__getitem__ self key h)
    = Raise (KeyError (normalize_key key))
  ∨ (∃ tn, key = POther tn
           ∧ fst (TypesRegistry.__getitem__ self key h)
             = Raise (TypeError ("the key must be an oid or a name, got <class '"
                                 ++ tn ++ "'>")))
  ∨ fst (TypesRegistry.__getitem__ self key h) = Stuck.
Proof.
  rewrite getitem_view.
  destruct key as [s | z | items | tn];
    try (destruct (registries h !! self) as [r |]; [| by auto];
         destruct (dicts h !! _registry r) as [d |]; [| by auto];
         match goal with
         | |- context [d !! ?k] => destruct (d !! k) as [t |]; eauto
         end).
  right; right; left. by exists tn.
Qed.

(** X1.  [get] returns a descriptor exactly when indexing returns it and
    [None] exactly when indexing raises [KeyError]; the only exception
    that leaves [get] is the [TypeError] for a key that is neither a
    string, an integer nor a tuple; [get] does not change the heap. *)
Theorem get_agrees_with_getitem h self key :
  (∀ t, fst (TypesRegistry.get self key h) = Ok (Some t)
        ↔ fst (TypesRegistry.__getitem__ self key h) = Ok t)
  ∧ (fst (TypesRegistry.get self key h) = Ok None
     ↔ fst (TypesRegistry.__getitem__ self key h)
       = Raise (KeyError (normalize_key key)))
  ∧ (∀ e, fst (TypesRegistry.get self key h) = Raise e →
          isinstance_exn e "KeyError" = false ∧ ∃ tn, key = POther tn)
  ∧ snd (TypesRegistry.get self key h) = h.
Proof.
  rewrite get_spec. simpl.
  destruct (getitem_cases h self key) as [[t Ht] | [Hk | [(tn & -> & Ht) | Hs]]].
  - rewrite Ht. split_and!; try done.
    intros t'. split; intros H; by simplify_eq.
  - rewrite Hk. simpl. split_and!; try done.
  - rewrite Ht. simpl. split_and!; try done.
    intros e He. simplify_eq. split; [done | by exists tn].
  - rewrite Hs. split_and!; try done.
Qed.

(** X2.  [get_oid] on the index [d] of a registry.  A name the index does
    not bind (after stripping the array marker) raises [KeyError] with the
    stripped name; a bound name gives the [array_oid] if the name carried
    the marker and the [oid] otherwise.  An integer key that the index
    binds raises [AttributeError] (the method calls [endswith] on it); an
    integer key that it does not bind raises [KeyError]. *)
Theorem get_oid_outcomes h self r d :
  registries h !! self = Some r → dicts h !! _registry r = Some d →
  (∀ s, d !! normalize_key (PStr s) = None →
        TypesRegistry.get_oid self (PStr s) h
        = (Raise (KeyError (normalize_key (PStr s))), h))
  ∧ (∀ s t i, d !! normalize_key (PStr s) = Some t → objects h !! t = Some i →
        TypesRegistry.get_oid self (PStr s) h
        = (Ok (if endswith s "[]" then array_oid i else oid i), h))
  ∧ (∀ z t, d !! PInt z = Some t →
        TypesRegistry.get_oid self (PInt z) h
        = (Raise (AttributeError "'int' object has no attribute 'endswith'"), h))
  ∧ (∀ z, d !! PInt z = None →
        TypesRegistry.get_oid self (PInt z) h = (Raise (KeyError (PInt z)), h)).
Proof.
  intros Hr Hd. split_and!.
  - intros s Hs. rewrite get_oid_spec.
    by rewrite (getitem_spec h self r d) by done; rewrite Hs.
  - intros s t i Ht Hi. rewrite get_oid_spec.
    rewrite (getitem_spec h self r d) by done. rewrite Ht. simpl.
    by rewrite Hi.
  - intros z t Ht. unfold TypesRegistry.get_oid.
    rewrite bind_fst by apply getitem_heap.
    rewrite (getitem_spec h self r d) by done. simpl. by rewrite Ht.
  - intros z Hz. unfold TypesRegistry.get_oid.
    rewrite bind_fst by apply getitem_heap.
    rewrite (getitem_spec h self r d) by done. simpl. by rewrite Hz.
Qed.

(** X3.  [get_by_subtype] on the index [d] of a registry, for a key that
    is a string, an integer or a tuple: if the index does not bind the
    element key the result is [None], not a [KeyError]; if it binds it to
    a descriptor, the result is what the index binds to the pair of the
    class and that descriptor's [oid], [None] if nothing. *)
Theorem get_by_subtype_outcomes h self r d (cls : string) key :
  registries h !! self = Some r → dicts h !! _registry r = Some d →
  (∀ tn, key ≠ POther tn) →
  (d !! normalize_key key = None →
   TypesRegistry.get_by_subtype self cls key h = (Ok None, h))
  ∧ (∀ t i, d !! normalize_key key = Some t → objects h !! t = Some i →
       TypesRegistry.get_by_subtype self cls key h
       = (Ok (d !! PTuple [AType cls; AInt (oid i)]), h)).
Proof.
  intros Hr Hd Hkey. rewrite get_by_subtype_spec, get_spec.
  rewrite (getitem_spec h self r d) by done. simpl. split.
  - by intros ->.
  - intros t i -> Hi. simpl. rewrite Hi, get_spec.
    rewrite (getitem_spec h self r d) by done. simpl.
    by destruct (d !! PTuple [AType cls; AInt (oid i)]).
Qed.

(** X4.  For a name that does not end with the array marker, indexing,
    [get] and [get_by_subtype] have the same outcome with the marker
    appended as without it, whether the name is known or not. *)
Theorem array_marker_is_ignored h self (s : string) :
  endswith s "[]" = false →
  TypesRegistry.__getitem__ self (PStr (s ++ "[]")) h
  = TypesRegistry.__getitem__ self (PStr s) h
  ∧ TypesRegistry.get self (PStr (s ++ "[]")) h
    = TypesRegistry.get self (PStr s) h
  ∧ ∀ cls, TypesRegistry.get_by_subtype self cls (PStr (s ++ "[]")) h
           = TypesRegistry.get_by_subtype self cls (PStr s) h.
Proof.
  intros Hs.
  assert (Hg : TypesRegistry.__getitem__ self (PStr (s ++ "[]")) h
               = TypesRegistry.__getitem__ self (PStr s) h).
  { apply injective_projections; [| by rewrite !getitem_heap].
    rewrite !getitem_view, normalize_key_array, normalize_key_plain by done.
    done. }
  assert (Hget : TypesRegistry.get self (PStr (s ++ "[]")) h
                 = TypesRegistry.get self (PStr s) h)
    by (by rewrite !get_spec, Hg).
  split_and!; [done | done |].
  intros cls. by rewrite !get_by_subtype_spec, Hget.
Qed.

End MoreLookups.

(** ** Creating, deriving, clearing *)

Section Lifecycle.

Implicit Types (h : Heap) (self t : loc) (r : TypesRegistry)
  (d : gmap pyval loc) (i : TypeInfo) (key : pyval).

(** Lookups see a registry through the dict it refers to. *)
Lemma lookups_coincide_intro h h' (a b : loc) (ra rb : TypesRegistry) :
  registries h !! a = Some ra → registries h' !! b = Some rb →
  dicts h !! _registry ra = dicts h' !! _registry rb →
  objects h = objects h' →
  lookups_coincide h a h' b.
Proof.
  intros Ha Hb Hd Hobj.
  assert (Hget : ∀ key, fst (TypesRegistry.__getitem__ a key h)
                        = fst (TypesRegistry.__getitem__ b key h')).
  { intros key. rewrite !getitem_view, Ha, Hb, Hd. done. }
  assert (Hget' : ∀ key, fst (TypesRegistry.get a key h)
                         = fst (TypesRegistry.get b key h')).
  { intros key. by rewrite !get_spec, Hget. }
  intros key. split; [apply Hget |]. split; [apply Hget' |]. split.
  - unfold TypesRegistry.get_oid.
    rewrite !bind_fst by apply getitem_heap. rewrite <- Hget.
    destruct (fst (TypesRegistry.__getitem__ a key h)) as [t | e | ];
      try done.
    destruct key; try done. unfold_M. rewrite <- Hobj.
    by destruct (objects h !! t).
  - intros cls. rewrite !get_by_subtype_spec, <- Hget', <- Hobj.
    destruct (fst (TypesRegistry.get a key h)) as [[t |] | e | ]; try done.
    simpl. destruct (objects h !! t); [apply Hget' | done].
Qed.

(** Every lookup on a registry whose dict is empty is a miss. *)
Lemma empty_registry_misses h self r (cls : string) key :
  registries h !! self = Some r → dicts h !! _registry r = Some ∅ →
  (∀ tn, key ≠ POther tn) →
  TypesRegistry.__getitem__ self key h
  = (Raise (KeyError (normalize_key key)), h)
  ∧ TypesRegistry.get self key h = (Ok None, h)
  ∧ TypesRegistry.get_by_subtype self cls key h = (Ok None, h).
Proof.
  intros Hr Hd Hkey.
  destruct (getitem_unbound h self r ∅ key Hr Hd Hkey) as [Hg Hget];
    [apply lookup_empty |].
  split_and!; [done | done |].
  by rewrite get_by_subtype_spec, Hget.
Qed.

(** X5.  [clear] always succeeds; afterwards the registry owns a new,
    empty dict, and every lookup on it with a string, integer or tuple key
    is a miss: indexing raises [KeyError], [get] and [get_by_subtype]
    return [None]. *)
Theorem clear_empties h self :
  ∃ h',
    TypesRegistry.clear self h = (Ok (), h')
    ∧ registries h' !! self
      = Some {| _registry := next_loc h; _own_state := true |}
    ∧ own_storage h' self = Some ∅
    ∧ ∀ key (cls : string), (∀ tn, key ≠ POther tn) →
        TypesRegistry.__getitem__ self key h'
        = (Raise (KeyError (normalize_key key)), h')
        ∧ TypesRegistry.get self key h' = (Ok None, h')
        ∧ TypesRegistry.get_by_subtype self cls key h' = (Ok None, h').
Proof.
  eexists. split; [apply clear_spec |].
  match goal with |- registries ?h' !! _ = _ ∧ _ =>
    assert (Hr : registries h' !! self
                 = Some {| _registry := next_loc h; _own_state := true |})
      by (simpl; apply lookup_insert_eq);
    assert (Hd : dicts h' !! next_loc h = Some ∅)
      by (simpl; apply lookup_insert_eq)
  end.
  split; [done |]. split; [by apply (own_storage_spec _ self _ ∅ Hr) |].
  intros key cls Hkey. by apply (empty_registry_misses _ self _ cls key Hr).
Qed.

(** X6.  [TypesRegistry()] in a well-formed heap returns a new registry:
    it is empty (every lookup with a string, integer or tuple key is a
    miss) and owns its dict, and the lookups of every other registry are
    as before. *)
Theorem new_registry_is_empty h :
  wf h →
  ∃ B h',
    TypesRegistry.__init__ None h = (Ok B, h')
    ∧ registries h !! B = None
    ∧ (∃ own, registries h' !! B = Some {| _registry := own; _own_state := true |})
    ∧ own_storage h' B = Some ∅
    ∧ (∀ key (cls : string), (∀ tn, key ≠ POther tn) →
         TypesRegistry.__getitem__ B key h'
         = (Raise (KeyError (normalize_key key)), h')
         ∧ TypesRegistry.get B key h' = (Ok None, h')
         ∧ TypesRegistry.get_by_subtype B cls key h' = (Ok None, h'))
    ∧ ∀ o : loc, o ≠ B → lookups_agree h h' o.
Proof.
  intros Hwf. eexists _, _. split; [apply init_empty_spec |].
  assert (Hfresh : registries h !! next_loc h = None).
  { destruct (registries h !! next_loc h) as [r |] eqn:Hr; [| done].
    destruct (wf_registry h _ r Hwf Hr) as (Hlt & _). lia. }
  match goal with |- _ ∧ _ ∧ own_storage ?h' _ = _ ∧ _ =>
    assert (Hr : registries h' !! next_loc h
                 = Some {| _registry := S (next_loc h); _own_state := true |})
      by (simpl; apply lookup_insert_eq);
    assert (Hd : dicts h' !! S (next_loc h) = Some ∅)
      by (simpl; apply lookup_insert_eq)
  end.
  split_and!; [done | by eexists | by apply (own_storage_spec _ _ _ ∅ Hr) | |].
  - intros key cls Hkey. by apply (empty_registry_misses _ _ _ cls key Hr).
  - intros o Ho. apply lookups_agree_same_view; [| | done].
    + simpl. by rewrite lookup_insert_ne.
    + intros r Hr'. simpl.
      destruct (wf_registry h o r Hwf Hr') as (_ & Hlt & _).
      rewrite lookup_insert_ne; [done | lia].
Qed.

(** X7.  [TypesRegistry(template)] in a well-formed heap returns a new
    registry on which every lookup has the outcome that it had on the
    template, and the lookups of every other registry, the template
    included, are as before. *)
Theorem derived_registry_sees_template h (A : loc) rA :
  wf h → registries h !! A = Some rA →
  ∃ B h1,
    TypesRegistry.__init__ (Some A) h = (Ok B, h1)
    ∧ registries h !! B = None
    ∧ lookups_coincide h A h1 B
    ∧ ∀ o : loc, o ≠ B → lookups_agree h h1 o.
Proof.
  intros Hwf HA.
  destruct (init_template_shares h A rA Hwf HA)
    as (B & h1 & Hinit & _ & HAB & HA1 & HB1 & Hdicts).
  assert (HB : B = next_loc h).
  { rewrite (init_template_spec h A rA HA) in Hinit. by simplify_eq. }
  assert (Hobj : objects h = objects h1).
  { rewrite (init_template_spec h A rA HA) in Hinit. by simplify_eq. }
  assert (Hregs : ∀ o : loc, o ≠ A → o ≠ B →
                    registries h1 !! o = registries h !! o).
  { intros o HoA HoB. rewrite (init_template_spec h A rA HA) in Hinit.
    simplify_eq. simpl. by rewrite !lookup_insert_ne. }
  exists B, h1. split_and!; try done.
  - subst B. destruct (registries h !! next_loc h) as [r |] eqn:Hr; [| done].
    destruct (wf_registry h _ r Hwf Hr) as (Hlt & _). lia.
  - apply (lookups_coincide_intro h h1 A B _ _ HA HB1); [| done].
    by rewrite Hdicts.
  - intros o HoB. destruct (decide (o = A)) as [-> | HoA].
    + apply (lookups_coincide_intro h h1 A A _ _ HA HA1); [| done].
      by rewrite Hdicts.
    + apply lookups_agree_same_view; [by rewrite Hregs | | done].
      intros r _. by rewrite Hdicts.
Qed.

(** X8.  [_ensure_own_state] on a registry of a well-formed heap leaves
    the registry marked as owning its dict, with the same contents, and
    changes the outcome of no lookup on any registry; a second call
    changes nothing. *)
Theorem ensure_own_state_keeps_lookups h self r :
  wf h → registries h !! self = Some r →
  ∃ h' r',
    TypesRegistry._ensure_own_state self h = (Ok (), h')
    ∧ registries h' !! self = Some r' ∧ _own_state r' = true
    ∧ own_storage h' self = own_storage h self
    ∧ (∀ o : loc, lookups_agree h h' o)
    ∧ TypesRegistry._ensure_own_state self h' = (Ok (), h').
Proof.
  intros Hwf Hr.
  destruct (wf_registry h self r Hwf Hr) as (_ & HltD & d & Hd).
  destruct (_own_state r) eqn:Hown.
  - exists h, r. split; [by apply (ensure_own_state_owned h self r) |].
    split; [done |]. split; [done |]. split; [done |]. split.
    + intros o. by apply lookups_agree_same_view.
    + by apply (ensure_own_state_owned h self r).
  - eexists _, _.
    split; [by apply (ensure_own_state_shared h self r d) |].
    match goal with |- registries ?h' !! _ = _ ∧ _ =>
      assert (Hr' : registries h' !! self
                    = Some {| _registry := next_loc h; _own_state := true |})
        by (simpl; apply lookup_insert_eq);
      assert (Hd' : dicts h' !! next_loc h = Some d)
        by (simpl; apply lookup_insert_eq)
    end.
    split; [done |]. split; [done |]. split; [| split].
    + rewrite (own_storage_spec _ self _ d Hr' Hd').
      by rewrite (own_storage_spec h self r d).
    + intros o. destruct (decide (o = self)) as [-> | Ho].
      * apply (lookups_coincide_intro _ _ self self _ _ Hr Hr'); [| done].
        rewrite Hd. symmetry. exact Hd'.
      * apply lookups_agree_same_view; [| | done].
        -- simpl. by rewrite lookup_insert_ne.
        -- intros ro Hro. simpl.
           destruct (wf_registry h o ro Hwf Hro) as (_ & Hlt & _).
           rewrite lookup_insert_ne; [done | lia].
    + by apply (ensure_own_state_owned _ self _ Hr').
Qed.

End Lifecycle.

(** ** More on [add] *)

Section MoreAdd.

Implicit Types (h : Heap) (self x t : loc) (r : TypesRegistry)
  (d : gmap pyval loc) (i : TypeInfo) (key : pyval).

Lemma add_index_not_scalar i x d key :
  (∀ s, key ≠ PStr s) → (∀ z, key ≠ PInt z) →
  add_index i x d !! key = d !! key.
Proof.
  intros Hs Hz. unfold add_index.
  assert (H1 : (if negb (Z.eqb (oid i) 0) then <[PInt (oid i) := x]> d else d)
               !! key = d !! key).
  { case_match; [| done]. by rewrite lookup_insert_ne. }
  set (d1 := if negb (Z.eqb (oid i) 0) then <[PInt (oid i) := x]> d else d)
    in *.
  assert (H2 : (if negb (Z.eqb (array_oid i) 0)
                then <[PInt (array_oid i) := x]> d1 else d1) !! key
               = d !! key).
  { case_match; [| done]. by rewrite lookup_insert_ne. }
  set (d2 := if negb (Z.eqb (array_oid i) 0)
             then <[PInt (array_oid i) := x]> d1 else d1) in *.
  clearbody d2. clear H1. clearbody d1.
  destruct (negb (String.eqb (regtype i) "") && _);
    by rewrite !lookup_insert_ne.
Qed.

(** The binding of any key after the stores of [add]. *)
Lemma add_index_lookup i x d key :
  add_index i x d !! key = Some x
  ∨ add_index i x d !! key = d !! key.
Proof.
  destruct key as [s | z | items | tn].
  - destruct (decide (s = name i)) as [-> | Hs];
      [left; apply add_index_name |].
    rewrite add_index_str by done.
    destruct (d !! PStr s); [by right |]. case_decide; [by left | by right].
  - rewrite add_index_int. case_decide; [by left | by right].
  - right. by apply add_index_not_scalar.
  - right. by apply add_index_not_scalar.
Qed.

Lemma add_index_idempotent i x d :
  add_index i x (add_index i x d) = add_index i x d.
Proof.
  apply map_eq. intros key. destruct key as [s | z | items | tn].
  - destruct (decide (s = name i)) as [-> | Hs];
      [by rewrite !add_index_name |].
    rewrite (add_index_str i x (add_index i x d)) by done.
    rewrite add_index_str by done.
    destruct (d !! PStr s); [done |]. by case_decide.
  - rewrite (add_index_int i x (add_index i x d)), add_index_int.
    by case_decide.
  - by rewrite !add_index_not_scalar.
  - by rewrite !add_index_not_scalar.
Qed.

(** X9.  Adding the same descriptor a second time changes nothing: the
    second [add] succeeds and leaves the heap as the first one left it. *)
Theorem add_twice_is_add_once h self r d x i :
  registries h !! self = Some r → dicts h !! _registry r = Some d →
  objects h !! x = Some i →
  ∃ h', TypesRegistry.add self x h = (Ok (), h')
        ∧ TypesRegistry.add self x h' = (Ok (), h').
Proof.
  intros Hr Hd Hx. destruct (_own_state r) eqn:Hown.
  - eexists. split; [by apply (add_owned_spec h self r d x i) |].
    rewrite (add_owned_spec _ self r (add_index i x d) x i);
      [| done | done | simpl; apply lookup_insert_eq | done].
    by rewrite add_index_idempotent, heap_set_dict_twice.
  - eexists. split; [by apply (add_shared_spec h self r d x i) |].
    rewrite (add_owned_spec _ self
               {| _registry := next_loc h; _own_state := true |}
               (add_index i x d) x i);
      [| simpl; apply lookup_insert_eq | done
       | simpl; apply lookup_insert_eq | done].
    simpl. by rewrite add_index_idempotent, heap_set_dict_twice.
Qed.

(** X10.  [add] never unbinds a key and never rebinds a key to anything
    but the added descriptor; keys other than the descriptor's [oid],
    [array_oid], [name] and [regtype] keep their bindings; no descriptor
    object is changed. *)
Theorem add_changes_only_its_keys h self r d x i :
  registries h !! self = Some r → dicts h !! _registry r = Some d →
  objects h !! x = Some i →
  ∃ h' idx,
    TypesRegistry.add self x h = (Ok (), h')
    ∧ own_storage h' self = Some idx
    ∧ (∀ key, is_Some (d !! key) → is_Some (idx !! key))
    ∧ (∀ key t, idx !! key = Some t → t = x ∨ d !! key = Some t)
    ∧ (∀ key, key ≠ PInt (oid i) → key ≠ PInt (array_oid i) →
              key ≠ PStr (name i) → key ≠ PStr (regtype i) →
              idx !! key = d !! key)
    ∧ objects h' = objects h.
Proof.
  intros Hr Hd Hx.
  destruct (add_own_storage h self r d x i Hr Hd Hx)
    as (h' & r' & Hadd & Hr' & Hd' & Hobj).
  exists h', (add_index i x d).
  split; [done |]. split; [by apply (own_storage_spec h' self r') |].
  split; [| split; [| split; [| done]]].
  - intros key Hsome.
    destruct (add_index_lookup i x d key) as [-> | ->]; [by eexists | done].
  - intros key t Ht.
    destruct (add_index_lookup i x d key) as [Hk | Hk]; rewrite Hk in Ht.
    + left. by simplify_eq.
    + by right.
  - intros key Ho Ha Hn Hrt. destruct key as [s | z | items | tn].
    + rewrite add_index_str by congruence.
      destruct (d !! PStr s); [done |].
      rewrite decide_False; [done |]. intros [-> _]. done.
    + rewrite add_index_int. rewrite decide_False; [done |].
      intros [[-> _] | [-> _]]; done.
    + by apply add_index_not_scalar.
    + by apply add_index_not_scalar.
Qed.

(** X11.  After an [add] the registry is marked as owning its dict, and a
    further [add] on it writes into that dict: it changes no registry
    object and creates no object. *)
Theorem only_first_add_copies h self r d x (y : loc) i iy :
  registries h !! self = Some r → dicts h !! _registry r = Some d →
  objects h !! x = Some i → objects h !! y = Some iy →
  ∃ h1 h2 r1,
    TypesRegistry.add self x h = (Ok (), h1)
    ∧ registries h1 !! self = Some r1 ∧ _own_state r1 = true
    ∧ TypesRegistry.add self y h1 = (Ok (), h2)
    ∧ registries h2 = registries h1
    ∧ next_loc h2 = next_loc h1
    ∧ objects h2 = objects h1.
Proof.
  intros Hr Hd Hx Hy.
  assert (Hown_add : ∀ h1 r1 d1,
            registries h1 !! self = Some r1 → _own_state r1 = true →
            dicts h1 !! _registry r1 = Some d1 → objects h1 !! y = Some iy →
            ∃ h2, TypesRegistry.add self y h1 = (Ok (), h2)
                  ∧ registries h2 = registries h1
                  ∧ next_loc h2 = next_loc h1 ∧ objects h2 = objects h1).
  { intros h1 r1 d1 Hr1 Ho1 Hd1 Hy1. eexists.
    split; [by apply (add_owned_spec h1 self r1 d1 y iy) |]. done. }
  destruct (_own_state r) eqn:Hown.
  - destruct (Hown_add (heap_set_dict (_registry r) (add_index i x d) h)
                r (add_index i x d)) as (h2 & Hadd2 & ? & ? & ?);
      [done | done | simpl; apply lookup_insert_eq | done |].
    eexists _, h2, r.
    split; [by apply (add_owned_spec h self r d x i) |]. done.
  - set (r1 := {| _registry := next_loc h; _own_state := true |}).
    set (h1 := heap_set_dict (next_loc h) (add_index i x d)
                 (heap_set_registry self r1
                    (heap_set_dict (next_loc h) d (heap_alloc h)))).
    destruct (Hown_add h1 r1 (add_index i x d)) as (h2 & Hadd2 & ? & ? & ?);
      [simpl; apply lookup_insert_eq | done
      | simpl; apply lookup_insert_eq | done |].
    exists h1, h2, r1.
    split; [by apply (add_shared_spec h self r d x i) |].
    split; [simpl; apply lookup_insert_eq |]. done.
Qed.

End MoreAdd.

(** ** Invariants of reachable heaps *)

Section Reachable.

Implicit Types (h : Heap) (self x t : loc) (r : TypesRegistry)
  (d : gmap pyval loc) (i : TypeInfo) (key : pyval).

Lemma exclusive_same_registries h h' :
  registries h' = registries h → exclusive h → exclusive h'.
Proof. unfold exclusive. by intros ->. Qed.

(** A registry that takes a dict to which no other registry refers. *)
Lemma exclusive_set_registry_fresh h (l : loc) (reg : TypesRegistry) :
  exclusive h →
  (∀ (r2 : loc) reg2, registries h !! r2 = Some reg2 → r2 ≠ l →
              _registry reg2 ≠ _registry reg) →
  exclusive (heap_set_registry l reg h).
Proof.
  intros Hex Hfresh r1 reg1 H1 r2 reg2 H2 Hne Hsame. simpl in H1, H2.
  destruct (decide (r1 = l)) as [-> | Hr1].
  - rewrite lookup_insert_eq in H1. rewrite lookup_insert_ne in H2 by done.
    simplify_eq. by destruct (Hfresh r2 reg2 H2).
  - rewrite lookup_insert_ne in H1 by done.
    destruct (decide (r2 = l)) as [-> | Hr2].
    + rewrite lookup_insert_eq in H2. simplify_eq.
      by destruct (Hfresh r1 reg1 H1).
    + rewrite lookup_insert_ne in H2 by done.
      by apply (Hex r1 reg1 H1 r2 reg2 H2).
Qed.

(** The registries after [TypesRegistry(template)]. *)
Lemma exclusive_derive h (t B : loc) (rt : TypesRegistry) :
  exclusive h → registries h !! t = Some rt → registries h !! B = None →
  exclusive
    (heap_set_registry t {| _registry := _registry rt; _own_state := false |}
       (heap_set_registry B
          {| _registry := _registry rt; _own_state := false |}
          (heap_alloc h))).
Proof.
  intros Hex Ht HB r1 reg1 H1 r2 reg2 H2 Hne Hsame. simpl in H1, H2.
  assert (HtB : t ≠ B) by (intros ->; by rewrite Ht in HB).
  destruct (decide (r1 = t)) as [-> | Hr1t];
    [rewrite lookup_insert_eq in H1; by simplify_eq |].
  rewrite lookup_insert_ne in H1 by done.
  destruct (decide (r1 = B)) as [-> | Hr1B];
    [rewrite lookup_insert_eq in H1; by simplify_eq |].
  rewrite lookup_insert_ne in H1 by done.
  destruct (decide (r2 = t)) as [-> | Hr2t].
  - rewrite lookup_insert_eq in H2. simplify_eq.
    by apply (Hex r1 reg1 H1 t rt Ht).
  - rewrite lookup_insert_ne in H2 by done.
    destruct (decide (r2 = B)) as [-> | Hr2B].
    + rewrite lookup_insert_eq in H2. simplify_eq.
      by apply (Hex r1 reg1 H1 t rt Ht).
    + rewrite lookup_insert_ne in H2 by done.
      by apply (Hex r1 reg1 H1 r2 reg2 H2).
Qed.

Lemma index_ok_alloc h : index_ok h → index_ok (heap_alloc h).
Proof.
  intros [Hobj Hdicts]. split; [| done].
  intros l i Hl. pose proof (Hobj l i Hl). simpl in *. lia.
Qed.

Lemma index_ok_set_registry h (l : loc) (reg : TypesRegistry) :
  index_ok h → index_ok (heap_set_registry l reg h).
Proof. done. Qed.

Lemma index_ok_new_info h i :
  index_ok h → index_ok (heap_set_info (next_loc h) i (heap_alloc h)).
Proof.
  intros [Hobj Hdicts]. split; simpl.
  - apply map_Forall_insert_2; [lia |].
    intros l i' Hl. pose proof (Hobj l i' Hl). simpl in *. lia.
  - intros l d Hd key t Ht. destruct (Hdicts l d Hd key t Ht) as [Hsome Hkey].
    split; [| done]. rewrite lookup_insert_is_Some.
    destruct (decide (next_loc h = t)); [by left | by right].
Qed.

Lemma index_ok_set_dict h (l : loc) d :
  index_ok h →
  (∀ key t, d !! key = Some t →
     is_Some (objects h !! t)
     ∧ match key with PStr _ | PInt _ => True | _ => False end) →
  index_ok (heap_set_dict l d h).
Proof.
  intros [Hobj Hdicts] Hd. split; [done |]. simpl.
  by apply map_Forall_insert_2.
Qed.

Lemma index_ok_add_index h d x i :
  objects h !! x = Some i →
  (∀ key t, d !! key = Some t →
     is_Some (objects h !! t)
     ∧ match key with PStr _ | PInt _ => True | _ => False end) →
  ∀ key t, add_index i x d !! key = Some t →
    is_Some (objects h !! t)
    ∧ match key with PStr _ | PInt _ => True | _ => False end.
Proof.
  intros Hx Hd key t Ht.
  assert (Hval : is_Some (objects h !! t)).
  { destruct (add_index_lookup i x d key) as [Hk | Hk]; rewrite Hk in Ht.
    - simplify_eq. by eexists.
    - by destruct (Hd key t Ht). }
  split; [done |].
  destruct key as [s | z | items | tn]; try done.
  - rewrite add_index_not_scalar in Ht by done. by destruct (Hd _ _ Ht).
  - rewrite add_index_not_scalar in Ht by done. by destruct (Hd _ _ Ht).
Qed.

Lemma reachable_inv h : reachable h → wf h ∧ exclusive h ∧ index_ok h.
Proof.
  induction 1 as [| h n o a rt dl _ (Hwf & Hex & Hok)
                  | h _ (Hwf & Hex & Hok)
                  | h t rt _ (Hwf & Hex & Hok) Ht
                  | h self r _ (Hwf & Hex & Hok) Hr
                  | h self x r i _ (Hwf & Hex & Hok) Hr Hx].
  - split; [apply wf_empty |]. split; [apply map_Forall_empty |].
    split; apply map_Forall_empty.
  - split; [by apply wf_TypeInfo_init |].
    split; [by apply (exclusive_same_registries h) |].
    by apply index_ok_new_info.
  - split; [by apply wf_registry_init_empty |].
    rewrite init_empty_spec. simpl. split.
    + apply exclusive_set_registry_fresh;
        [by apply (exclusive_same_registries h) |].
      intros r2 reg2 Hr2 _. simpl in *.
      destruct (wf_registry h r2 reg2 Hwf Hr2) as (_ & Hlt & _). lia.
    + apply index_ok_set_registry, index_ok_set_dict;
        [by do 2 apply index_ok_alloc | by intros key t' ?].
  - split; [by apply (wf_registry_init_template h t rt) |].
    rewrite (init_template_spec h t rt Ht). simpl. split.
    + apply exclusive_derive; [done | done |].
      destruct (registries h !! next_loc h) as [r' |] eqn:Hr'; [| done].
      destruct (wf_registry h _ r' Hwf Hr') as (Hlt & _). lia.
    + by do 2 apply index_ok_set_registry; apply index_ok_alloc.
  - destruct (wf_registry h self r Hwf Hr) as (Hlt & _ & _).
    split; [by apply wf_clear |].
    rewrite clear_spec. simpl. split.
    + apply exclusive_set_registry_fresh;
        [by apply (exclusive_same_registries h) |].
      intros r2 reg2 Hr2 _. simpl in *.
      destruct (wf_registry h r2 reg2 Hwf Hr2) as (_ & Hlt2 & _). lia.
    + apply index_ok_set_registry, index_ok_set_dict;
        [by apply index_ok_alloc | by intros key t' ?].
  - split; [by apply (wf_add h self x r i) |].
    destruct (wf_registry h self r Hwf Hr) as (_ & HltD & d & Hd).
    assert (Hdok : ∀ key t, d !! key = Some t →
              is_Some (objects h !! t)
              ∧ match key with PStr _ | PInt _ => True | _ => False end)
      by (intros key t' Hk; by apply (proj2 Hok _ d Hd key t')).
    destruct (_own_state r) eqn:Hown.
    + rewrite (add_owned_spec h self r d x i) by done. simpl. split.
      * by apply (exclusive_same_registries h).
      * apply index_ok_set_dict; [done |].
        by apply (index_ok_add_index h d x i).
    + rewrite (add_shared_spec h self r d x i) by done. simpl. split.
      * apply (exclusive_same_registries
                 (heap_set_registry self
                    {| _registry := next_loc h; _own_state := true |} h));
          [done |].
        apply exclusive_set_registry_fresh; [done |].
        intros r2 reg2 Hr2 _. simpl.
        destruct (wf_registry h r2 reg2 Hwf Hr2) as (_ & Hlt2 & _). lia.
      * apply index_ok_set_dict;
          [| by apply (index_ok_add_index (heap_alloc h) d x i)].
        apply index_ok_set_registry, index_ok_set_dict;
          [by apply index_ok_alloc | done].
Qed.

(** X12.  Every heap built from the empty heap by calls of the two
    constructors, [clear] and [add] is well formed (registries refer to
    existing dicts), has no dict shared with a registry marked as owning
    it, and its indexes have string and integer keys only, bound to
    existing descriptors. *)
Theorem reachable_invariants h :
  reachable h →
  wf h
  ∧ (∀ (r1 r2 : loc) reg1 reg2,
       registries h !! r1 = Some reg1 → registries h !! r2 = Some reg2 →
       r1 ≠ r2 → _registry reg1 = _registry reg2 →
       _own_state reg1 = false ∧ _own_state reg2 = false)
  ∧ (∀ (self : loc) reg, registries h !! self = Some reg →
       ∃ d, dicts h !! _registry reg = Some d
            ∧ ∀ key t, d !! key = Some t →
                is_Some (objects h !! t)
                ∧ ((∃ s, key = PStr s) ∨ (∃ z, key = PInt z))).
Proof.
  intros Hreach. destruct (reachable_inv h Hreach) as (Hwf & Hex & Hok).
  split; [done |]. split.
  - intros r1 r2 reg1 reg2 H1 H2 Hne Hsame. split.
    + by apply (Hex r1 reg1 H1 r2 reg2 H2).
    + by apply (Hex r2 reg2 H2 r1 reg1 H1).
  - intros self reg Hreg.
    destruct (wf_registry h self reg Hwf Hreg) as (_ & _ & d & Hd).
    exists d. split; [done |]. intros key t Ht.
    destruct (proj2 Hok _ d Hd key t Ht) as [Hsome Hkey].
    split; [done |]. destruct key; try done; [left | right]; by eexists.
Qed.

(** [add] on a registry leaves the lookups of every other registry as
    they were, when no owned dict is shared. *)
Lemma add_isolated h (r o : loc) (reg : TypesRegistry) x i :
  wf h → exclusive h → r ≠ o →
  registries h !! r = Some reg → objects h !! x = Some i →
  ∃ h', TypesRegistry.add r x h = (Ok (), h') ∧ lookups_agree h h' o.
Proof.
  intros Hwf Hex Hro Hr Hx.
  destruct (wf_registry h r reg Hwf Hr) as (_ & HltD & d & Hd).
  destruct (_own_state reg) eqn:Hown.
  - eexists. split; [by apply (add_owned_spec h r reg d x i) |].
    apply lookups_agree_same_view; [done | | done].
    intros ro Ho. simpl. rewrite lookup_insert_ne; [done |].
    intros Hsame. pose proof (Hex r reg Hr o ro Ho Hro Hsame). congruence.
  - eexists. split; [by apply (add_shared_spec h r reg d x i) |].
    apply lookups_agree_same_view; [| | done].
    + simpl. by rewrite lookup_insert_ne.
    + intros ro Ho. simpl.
      destruct (wf_registry h o ro Hwf Ho) as (_ & Hlt & _).
      rewrite !lookup_insert_ne by lia. done.
Qed.

(** X13.  In a well-formed heap where no dict is shared with a registry
    marked as owning it (every reachable heap is one), [add] and [clear]
    on one registry change the outcome of no lookup on any other
    registry, whatever the history of the two registries. *)
Theorem mutation_is_isolated h (r o : loc) (reg : TypesRegistry) x i :
  wf h → exclusive h → r ≠ o →
  registries h !! r = Some reg → objects h !! x = Some i →
  (∃ h', TypesRegistry.add r x h = (Ok (), h') ∧ lookups_agree h h' o)
  ∧ (∃ h', TypesRegistry.clear r h = (Ok (), h') ∧ lookups_agree h h' o).
Proof.
  intros Hwf Hex Hro Hr Hx.
  split; [by apply (add_isolated h r o reg x i) |].
  eexists. split; [apply clear_spec |].
  apply lookups_agree_same_view; [| | done].
  - simpl. by rewrite lookup_insert_ne.
  - intros ro Ho. simpl.
    destruct (wf_registry h o ro Hwf Ho) as (_ & Hlt & _).
    rewrite lookup_insert_ne by lia. done.
Qed.

End Reachable.

(** ** fetch and the registry *)

Section MoreFetch.

Context {Composable : Type}.
Variable as_string : Composable → BaseConnection → string.
Variable execute_fetchall : BaseConnection → string → string → query_result.

Implicit Types (h : Heap) (conn : BaseConnection).

(** The heap after [fetch]: as before, or with one more descriptor. *)
Lemma fetch_heap conn (name : name_arg Composable) h :
  snd (TypeInfo.fetch as_string execute_fetchall conn name h) = h
  ∨ ∃ i, snd (TypeInfo.fetch as_string execute_fetchall conn name h)
         = heap_set_info (next_loc h) i (heap_alloc h).
Proof.
  unfold TypeInfo.fetch.
  destruct (conn_class conn); [| | by left].
  all: unfold TypeInfo._fetch, TypeInfo._fetch_async, TypeInfo.run_query,
         try_except; unfold_M.
  all: destruct (execute_fetchall conn _ _) as [recs | e];
         [destruct recs as [| row [| row' recs]];
            [by left | right; by eexists | by left]
         | destruct (isinstance_exn e "UndefinedObject"); by left].
Qed.

(** X14.  [fetch] never registers anything: whatever the connection, the
    name and the answer of the query, it leaves every registry object and
    every dict as they were, so indexing and [get] on any registry have
    the outcome they had before. *)
Theorem fetch_does_not_register conn (name : name_arg Composable) h :
  registries (snd (TypeInfo.fetch as_string execute_fetchall conn name h))
  = registries h
  ∧ dicts (snd (TypeInfo.fetch as_string execute_fetchall conn name h))
    = dicts h
  ∧ ∀ (r : loc) (key : pyval),
      fst (TypesRegistry.__getitem__ r key
             (snd (TypeInfo.fetch as_string execute_fetchall conn name h)))
      = fst (TypesRegistry.__getitem__ r key h)
      ∧ fst (TypesRegistry.get r key
               (snd (TypeInfo.fetch as_string execute_fetchall conn name h)))
        = fst (TypesRegistry.get r key h).
Proof.
  assert (Hframe : registries
                     (snd (TypeInfo.fetch as_string execute_fetchall conn name h))
                   = registries h
                   ∧ dicts
                       (snd (TypeInfo.fetch as_string execute_fetchall conn name h))
                     = dicts h).
  { destruct (fetch_heap conn name h) as [-> | [i ->]]; done. }
  destruct Hframe as [Hregs Hdicts].
  split; [done |]. split; [done |].
  intros r key.
  assert (Hg : fst (TypesRegistry.__getitem__ r key
                      (snd (TypeInfo.fetch as_string execute_fetchall conn name h)))
               = fst (TypesRegistry.__getitem__ r key h))
    by (by rewrite !getitem_view, Hregs, Hdicts).
  split; [done |]. by rewrite !get_spec, Hg.
Qed.

(** X15.  Fetch, then register: when the query answers with one row whose
    name does not end with the array marker, adding the fetched descriptor
    to a registry makes the row's name resolve to it, [get_oid] of the
    name give the row's [oid] and [get_oid] of the name with the marker
    give the row's [array_oid]. *)
Theorem fetch_then_add_resolves conn (name : name_arg Composable)
    (row : Row) h (self : loc) (r : TypesRegistry) :
  conn_class conn = Connection ∨ conn_class conn = AsyncConnection →
  execute_fetchall conn (TypeInfo._get_info_query conn)
    (name_text as_string conn name) = QRows [row] →
  wf h → registries h !! self = Some r →
  endswith (row_name row) "[]" = false →
  ∃ x h1 h2,
    TypeInfo.fetch as_string execute_fetchall conn name h = (Ok (Some x), h1)
    ∧ TypesRegistry.add self x h1 = (Ok (), h2)
    ∧ TypesRegistry.__getitem__ self (PStr (row_name row)) h2 = (Ok x, h2)
    ∧ TypesRegistry.get_oid self (PStr (row_name row)) h2
      = (Ok (row_oid row), h2)
    ∧ TypesRegistry.get_oid self (PStr (row_name row ++ "[]")) h2
      = (Ok (row_array_oid row), h2).
Proof.
  intros Hcls Hq Hwf Hr Hname.
  destruct (wf_registry h self r Hwf Hr) as (_ & _ & d & Hd).
  set (i := {| name := row_name row; oid := row_oid row;
               array_oid := row_array_oid row;
               regtype := if String.eqb (row_regtype row) ""
                          then row_name row else row_regtype row;
               delimiter := row_delimiter row |}).
  set (h1 := heap_set_info (next_loc h) i (heap_alloc h)).
  assert (Hfetch : TypeInfo.fetch as_string execute_fetchall conn name h
                   = (Ok (Some (next_loc h)), h1)).
  { rewrite fetch_sync_or_async by done.
    unfold TypeInfo._fetch, TypeInfo.run_query, try_except. unfold_M.
    by rewrite Hq. }
  assert (Hx : objects h1 !! next_loc h = Some i)
    by (simpl; apply lookup_insert_eq).
  destruct (add_own_storage h1 self r d (next_loc h) i Hr Hd Hx)
    as (h2 & r2 & Hadd & Hr2 & Hd2 & Hobj2).
  exists (next_loc h), h1, h2. split; [done |]. split; [done |].
  assert (Hx2 : objects h2 !! next_loc h = Some i) by (by rewrite Hobj2).
  destruct (array_suffix_normalization h2 self r2 _ (next_loc h) i
              (row_name row) Hr2 Hd2 Hx2 Hname (add_index_name i _ d))
    as (Ha & Hb & Hc & Hd').
  done.
Qed.

End MoreFetch.

(** ** Iteration *)

Section Iteration.

Implicit Types (h : Heap) (self x t : loc) (d : gmap pyval loc).

Lemma iter_values_spec (seen : gset loc) (values : list loc) :
  NoDup (TypesRegistry.iter_values seen values)
  ∧ (∀ t, t ∈ TypesRegistry.iter_values seen values ↔ t ∈ values ∧ t ∉ seen)
  ∧ sublist (TypesRegistry.iter_values seen values) values.
Proof.
  revert seen. induction values as [| v values IH]; intros seen; simpl.
  - split; [constructor |]. split; [| done].
    intros t. split; [by intros ?%elem_of_nil | by intros [?%elem_of_nil _]].
  - destruct (decide (v ∈ seen)) as [Hv | Hv].
    + destruct (IH seen) as (Hnd & Hin & Hsub).
      split; [done |]. split; [| by apply sublist_cons].
      intros t. split.
      * intros [Ht Hns]%Hin. split; [by apply elem_of_cons; right | done].
      * intros [[-> | Ht]%elem_of_cons Hns]; [done |]. by apply Hin.
    + destruct (IH ({[v]} ∪ seen)) as (Hnd & Hin & Hsub).
      split; [| split; [| by apply sublist_skip]].
      * apply NoDup_cons. split; [| done].
        intros [_ Hc]%Hin. apply Hc, elem_of_union_l. by apply elem_of_singleton.
      * intros t. split.
        -- intros [-> | [Ht Hns]%Hin]%elem_of_cons.
           ++ split; [by apply elem_of_cons; left | done].
           ++ split; [by apply elem_of_cons; right |].
              intros Hs. by apply Hns, elem_of_union_r.
        -- intros [[-> | Ht]%elem_of_cons Hns];
             [by apply elem_of_cons; left |].
           destruct (decide (t = v)) as [-> | Hne];
             [by apply elem_of_cons; left |].
           apply elem_of_cons. right. apply Hin. split; [done |].
           intros [Hs%elem_of_singleton | Hs]%elem_of_union; done.
Qed.


(** X17.  After the first [add] to an empty registry, iteration yields
    the added descriptor and nothing else, once, although the index binds
    it under several keys. *)
Theorem iter_after_first_add (dict_values : gmap pyval loc → list loc)
    h self (r : TypesRegistry) x (i : TypeInfo) :
  enumerates_values dict_values →
  registries h !! self = Some r → dicts h !! _registry r = Some ∅ →
  objects h !! x = Some i →
  ∃ h', TypesRegistry.add self x h = (Ok (), h')
        ∧ TypesRegistry.__iter__ dict_values self h' = (Ok [x], h').
Proof.
  intros Henum Hr Hd Hx.
  destruct (add_own_storage h self r ∅ x i Hr Hd Hx)
    as (h' & r' & Hadd & Hr' & Hd' & _).
  exists h'. split; [done |].
  unfold TypesRegistry.__iter__.
  rewrite (bind_ok _ _ h' (add_index i x ∅) h')
    by (by apply (registry_dict_spec h' self r')).
  destruct (iter_values_spec ∅ (dict_values (add_index i x ∅)))
    as (Hnd & Hin & _).
  assert (Hall : ∀ t, t ∈ TypesRegistry.iter_values ∅
                              (dict_values (add_index i x ∅)) ↔ t = x).
  { intros t. split.
    - intros [[key Hkey]%Henum _]%Hin.
      destruct (add_index_lookup i x ∅ key) as [Hk | Hk];
        rewrite Hk in Hkey; by simplify_eq.
    - intros ->. apply Hin. split; [| by apply not_elem_of_empty].
      apply Henum. exists (PStr (name i)). apply add_index_name. }
  destruct (TypesRegistry.iter_values ∅ (dict_values (add_index i x ∅)))
    as [| a [| b l]] eqn:Hl.
  - exfalso. by apply (elem_of_nil x), Hall.
  - assert (a = x) as -> by (apply Hall; by left). done.
  - exfalso.
    assert (a = x) as -> by (apply Hall; by left).
    assert (b = x) as -> by (apply Hall; right; by left).
    apply NoDup_cons in Hnd as [Hnotin _]. apply Hnotin. by left.
Qed.

End Iteration.

(** ** register, and registries of plain descriptors *)

Section MoreRegister.

Context {AdaptContext : Type}.
Variable adapters_types : AdaptContext → loc.
Variable postgres_types : loc.
Variable register_array : loc → option AdaptContext → M unit.

Implicit Types (h : Heap) (x t : loc) (i : TypeInfo) (key : pyval).

Lemma lookups_agree_trans h1 h2 h3 (o : loc) :
  lookups_agree h1 h2 o → lookups_agree h2 h3 o → lookups_agree h1 h3 o.
Proof.
  intros H12 H23 key.
  destruct (H12 key) as (A1 & A2 & A3 & A4).
  destruct (H23 key) as (B1 & B2 & B3 & B4).
  split; [congruence |]. split; [congruence |]. split; [congruence |].
  intros cls. by rewrite A4, B4.
Qed.

(** X18.  [register] stores the descriptor in the registry of the given
    context, or in the global registry when no context is given, and in
    that one only: there the descriptor's name resolves to it, and the
    lookups of every other registry are as before.  [register_array] is
    assumed to return without touching registries, dicts or descriptors,
    and the heap to be one where no owned dict is shared. *)
Theorem register_selects_registry h x i (context : option AdaptContext)
    (target : loc) (reg : TypesRegistry) :
  (∀ info ctx h0, ∃ h1,
      register_array info ctx h0 = (Ok (), h1)
      ∧ registries h1 = registries h0 ∧ dicts h1 = dicts h0
      ∧ objects h1 = objects h0) →
  target = match context with
           | Some c => adapters_types c
           | None => postgres_types
           end →
  wf h → exclusive h → registries h !! target = Some reg →
  objects h !! x = Some i → endswith (name i) "[]" = false →
  ∃ h', register adapters_types postgres_types register_array x context h
        = (Ok (), h')
        ∧ TypesRegistry.__getitem__ target (PStr (name i)) h' = (Ok x, h')
        ∧ ∀ o : loc, o ≠ target → lookups_agree h h' o.
Proof.
  intros Hra Htarget Hwf Hex Hreg Hx Hname.
  destruct (wf_registry h target reg Hwf Hreg) as (_ & _ & d & Hd).
  destruct (add_own_storage h target reg d x i Hreg Hd Hx)
    as (h1 & r1 & Hadd & Hr1 & Hd1 & Hobj1).
  assert (Hget1 : TypesRegistry.__getitem__ target (PStr (name i)) h1
                  = (Ok x, h1)).
  { apply (getitem_bound h1 target r1 _ _ x Hr1 Hd1); [done |].
    rewrite normalize_key_plain by done. apply add_index_name. }
  assert (Hiso1 : ∀ o : loc, o ≠ target → lookups_agree h h1 o).
  { intros o Ho.
    destruct (add_isolated h target o reg x i Hwf Hex) as (h1' & Hadd' & Hag);
      [done | done | done |].
    rewrite Hadd in Hadd'. by simplify_eq. }
  assert (Hx1 : objects h1 !! x = Some i) by (by rewrite Hobj1).
  assert (Hrun : register adapters_types postgres_types register_array
                   x context h
                 = (if negb (Z.eqb (array_oid i) 0)
                    then register_array x context else mret ()) h1).
  { unfold register. rewrite <- Htarget.
    rewrite (bind_ok _ _ h () h1) by done.
    unfold mbind at 1, M_bind at 1, read_info at 1. by rewrite Hx1. }
  rewrite Hrun. destruct (negb (Z.eqb (array_oid i) 0)).
  - destruct (Hra x context h1) as (h2 & Hra2 & Hregs & Hdicts & Hobjs).
    exists h2. split; [done |]. split.
    + apply injective_projections; [| apply getitem_heap].
      transitivity (fst (TypesRegistry.__getitem__ target (PStr (name i)) h1));
        [by rewrite !getitem_view, Hregs, Hdicts | by rewrite Hget1].
    + intros o Ho. apply (lookups_agree_trans h h1 h2); [by apply Hiso1 |].
      apply lookups_agree_same_view; [by rewrite Hregs | | done].
      intros ro _. by rewrite Hdicts.
  - exists h1. done.
Qed.

(** X19.  In a reachable heap the indexes hold no compound key, so
    [get_by_subtype] returns [None] for every string, integer or tuple
    key: a registry of plain [TypeInfo] descriptors has no derived
    descriptor to offer. *)
Theorem get_by_subtype_plain_registry h (self : loc) (reg : TypesRegistry)
    (cls : string) key :
  reachable h → registries h !! self = Some reg →
  (∀ tn, key ≠ POther tn) →
  TypesRegistry.get_by_subtype self cls key h = (Ok None, h).
Proof.
  intros Hreach Hreg Hkey.
  destruct (reachable_inv h Hreach) as (Hwf & _ & Hok).
  destruct (wf_registry h self reg Hwf Hreg) as (_ & _ & d & Hd).
  rewrite get_by_subtype_spec, get_spec.
  rewrite (getitem_spec h self reg d) by done. simpl.
  destruct (d !! normalize_key key) as [t |] eqn:Ht; [| done]. simpl.
  destruct (proj2 Hok _ d Hd _ t Ht) as [[i Hi] _]. rewrite Hi.
  rewrite get_spec, (getitem_spec h self reg d) by done. simpl.
  destruct (d !! PTuple [AType cls; AInt (oid i)]) as [t' |] eqn:Ht';
    [| done].
  by destruct (proj2 Hok _ d Hd _ t' Ht') as [_ ?].
Qed.

(** In a reachable heap no lookup on a registry follows a dangling
    reference: [Stuck] is not an outcome. *)
Lemma lookups_never_stuck h (self : loc) (reg : TypesRegistry) key :
  reachable h → registries h !! self = Some reg →
  fst (TypesRegistry.__getitem__ self key h) ≠ Stuck
  ∧ fst (TypesRegistry.get self key h) ≠ Stuck
  ∧ fst (TypesRegistry.get_oid self key h) ≠ Stuck
  ∧ ∀ cls, fst (TypesRegistry.get_by_subtype self cls key h) ≠ Stuck.
Proof.
  intros Hreach Hreg.
  destruct (reachable_inv h Hreach) as (Hwf & _ & Hok).
  destruct (wf_registry h self reg Hwf Hreg) as (_ & _ & d & Hd).
  assert (Hobj : ∀ k t, d !! k = Some t → ∃ i, objects h !! t = Some i).
  { intros k t Hk. by destruct (proj2 Hok _ d Hd k t Hk) as [[i Hi] _];
      exists i. }
  assert (Hg : ∀ k, fst (TypesRegistry.__getitem__ self k h)
                    = match k with
                      | POther tn =>
                          Raise (TypeError
                                   ("the key must be an oid or a name, got <class '"
                                    ++ tn ++ "'>"))
                      | _ => match d !! normalize_key k with
                             | Some t => Ok t
                             | None => Raise (KeyError (normalize_key k))
                             end
                      end).
  { intros k. rewrite getitem_view. destruct k; try done; by rewrite Hreg, Hd. }
  assert (Hget : ∀ k, fst (TypesRegistry.get self k h) ≠ Stuck).
  { intros k. rewrite get_spec, Hg. simpl.
    destruct k; try done; by destruct (d !! _). }
  split_and!.
  - rewrite Hg. destruct key; try done; by destruct (d !! _).
  - apply Hget.
  - unfold TypesRegistry.get_oid. rewrite bind_fst by apply getitem_heap.
    rewrite Hg. destruct key as [s | z | items | tn]; try done.
    + destruct (d !! normalize_key (PStr s)) as [t |] eqn:Ht; [| done].
      destruct (Hobj _ t Ht) as [i Hi]. unfold_M. by rewrite Hi.
    + by destruct (d !! normalize_key (PInt z)).
    + by destruct (d !! normalize_key (PTuple items)).
  - intros cls. rewrite get_by_subtype_spec. simpl.
    pose proof (Hget key) as Hk. rewrite get_spec in Hk. simpl in Hk.
    rewrite get_spec. simpl. rewrite Hg in *.
    destruct key as [s | z | items | tn]; try done.
    + destruct (d !! normalize_key (PStr s)) as [t |] eqn:Ht; [| done].
      simpl. destruct (Hobj _ t Ht) as [i Hi]. rewrite Hi. apply Hget.
    + destruct (d !! normalize_key (PInt z)) as [t |] eqn:Ht; [| done].
      simpl. destruct (Hobj _ t Ht) as [i Hi]. rewrite Hi. apply Hget.
    + destruct (d !! normalize_key (PTuple items)) as [t |] eqn:Ht; [| done].
      simpl. destruct (Hobj _ t Ht) as [i Hi]. rewrite Hi. apply Hget.
Qed.

(** X20.  Adding a descriptor whose name is already bound to another one
    takes over the name without any error, while an [oid] key of the
    earlier descriptor that is not an [oid] or [array_oid] of the new one
    stays bound to the earlier descriptor. *)
Theorem same_name_takes_over h (self : loc) (reg : TypesRegistry)
    (d : gmap pyval loc) (old x : loc) i (o1 : Z) :
  registries h !! self = Some reg → dicts h !! _registry reg = Some d →
  objects h !! x = Some i →
  d !! PStr (name i) = Some old → d !! PInt o1 = Some old →
  o1 ≠ oid i → o1 ≠ array_oid i → endswith (name i) "[]" = false →
  ∃ h', TypesRegistry.add self x h = (Ok (), h')
        ∧ TypesRegistry.__getitem__ self (PStr (name i)) h' = (Ok x, h')
        ∧ TypesRegistry.__getitem__ self (PInt o1) h' = (Ok old, h').
Proof.
  intros Hreg Hd Hx Hname Hold Ho Ha Hends.
  destruct (add_own_storage h self reg d x i Hreg Hd Hx)
    as (h' & r' & Hadd & Hr' & Hd' & _).
  exists h'. split; [done |]. split.
  - apply (getitem_bound h' self r' _ _ x Hr' Hd'); [done |].
    rewrite normalize_key_plain by done. apply add_index_name.
  - apply (getitem_bound h' self r' _ _ old Hr' Hd'); [done |]. simpl.
    rewrite add_index_int, decide_False; [done |].
    intros [[? _] | [? _]]; done.
Qed.

End MoreRegister.

(** ** Constructing descriptors *)

Section Construct.

Context {Composable : Type}.
Variable as_string : Composable → BaseConnection → string.
Variable execute_fetchall : BaseConnection → string → string → query_result.

Implicit Types (h : Heap) (t : loc) (key : pyval).

Lemma getitem_ok_inv h (o : loc) key t :
  fst (TypesRegistry.__getitem__ o key h) = Ok t →
  ∃ reg d, registries h !! o = Some reg ∧ dicts h !! _registry reg = Some d
           ∧ d !! normalize_key key = Some t.
Proof.
  rewrite getitem_view. intros Hok.
  destruct key as [s | z | items | tn]; [| | | done].
  all: destruct (registries h !! o) as [reg |]; [| done].
  all: destruct (dicts h !! _registry reg) as [d |] eqn:Hd; [| done].
  all: exists reg, d; split; [done |]; split; [done |].
  - destruct (d !! normalize_key (PStr s)); by simplify_eq.
  - destruct (d !! normalize_key (PInt z)); by simplify_eq.
  - destruct (d !! normalize_key (PTuple items)); by simplify_eq.
Qed.

(** Lookups read a descriptor only if an index binds it. *)
Lemma lookups_agree_bound_objects h h' (o : loc) :
  registries h' = registries h → dicts h' = dicts h →
  (∀ reg d key t, registries h !! o = Some reg →
     dicts h !! _registry reg = Some d → d !! key = Some t →
     objects h' !! t = objects h !! t) →
  lookups_agree h h' o.
Proof.
  intros Hregs Hdicts Hobj.
  assert (Hget : ∀ key, fst (TypesRegistry.__getitem__ o key h)
                        = fst (TypesRegistry.__getitem__ o key h'))
    by (intros key; by rewrite !getitem_view, Hregs, Hdicts).
  assert (Hget' : ∀ key, fst (TypesRegistry.get o key h)
                         = fst (TypesRegistry.get o key h'))
    by (intros key; by rewrite !get_spec, Hget).
  assert (Hread : ∀ key t, fst (TypesRegistry.__getitem__ o key h) = Ok t →
                    objects h' !! t = objects h !! t).
  { intros key t Hok.
    destruct (getitem_ok_inv h o key t Hok) as (reg & d & Hr & Hd & Ht).
    by apply (Hobj reg d (normalize_key key) t). }
  intros key. split; [apply Hget |]. split; [apply Hget' |]. split.
  - unfold TypesRegistry.get_oid.
    rewrite !bind_fst by apply getitem_heap. rewrite <- Hget.
    destruct (fst (TypesRegistry.__getitem__ o key h)) as [t | e | ] eqn:Hok;
      try done.
    destruct key; try done. unfold_M. rewrite (Hread _ t Hok).
    by destruct (objects h !! t).
  - intros cls. rewrite !get_by_subtype_spec, <- Hget'.
    rewrite get_spec. simpl.
    destruct (fst (TypesRegistry.__getitem__ o key h)) as [t | e | ] eqn:Hok;
      try done.
    + simpl. rewrite (Hread _ t Hok).
      destruct (objects h !! t); [apply Hget' | done].
    + by destruct (isinstance_exn e "KeyError").
Qed.

(** X21.  In a reachable heap, constructing a descriptor, directly or
    through [fetch], changes the outcome of no lookup on any registry,
    [get_oid] and [get_by_subtype] included: the new object is distinct
    from every descriptor that an index binds. *)
Theorem construction_changes_no_lookup h :
  reachable h →
  (∀ (n : string) (o a : Z) (rt dl : string) (r : loc),
     lookups_agree h (snd (TypeInfo.__init__ n o a rt dl h)) r)
  ∧ (∀ conn (name : name_arg Composable) (r : loc),
       lookups_agree h
         (snd (TypeInfo.fetch as_string execute_fetchall conn name h)) r).
Proof.
  intros Hreach. destruct (reachable_inv h Hreach) as (Hwf & _ & Hok).
  assert (Hnew : ∀ i (r : loc),
            lookups_agree h (heap_set_info (next_loc h) i (heap_alloc h)) r).
  { intros i r. apply lookups_agree_bound_objects; [done | done |].
    intros reg d key t _ Hd Ht. simpl.
    destruct (proj2 Hok _ d Hd key t Ht) as [[i' Hi'] _].
    pose proof (proj1 Hok t i' Hi') as Hlt. simpl in Hlt.
    rewrite lookup_insert_ne; [done | lia]. }
  split.
  - intros n o a rt dl r. apply Hnew.
  - intros conn name r.
    destruct (fetch_heap as_string execute_fetchall conn name h)
      as [-> | [i ->]]; [| apply Hnew].
    by apply lookups_agree_same_view.
Qed.

End Construct.

(** ** Instances of the further properties *)

Lemma reachable_example_heap : reachable example_heap.
Proof.
  pose (h1 := snd (TypesRegistry.__init__ None empty_heap)).
  pose (h2 := snd (TypeInfo.__init__ "foo" 1 2 "" "," h1)).
  pose (h3 := snd (TypesRegistry.add 0%nat 2%nat h2)).
  pose (h4 := snd (TypeInfo.__init__ "bar" 3 4 "foo" "," h3)).
  pose (h5 := snd (TypeInfo.__init__ "baz[]" 5 6 "" "," h4)).
  pose (h6 := snd (TypeInfo.__init__ "int4" 23 1007 "integer" "," h5)).
  assert (H : reachable h6).
  { apply reach_info, reach_info, reach_info.
    apply (reach_add h2 0%nat 2%nat
             {| _registry := 1%nat; _own_state := true |}
             {| name := "foo"; oid := 1; array_oid := 2; regtype := "foo";
                delimiter := "," |});
      [| reflexivity | reflexivity].
    apply reach_info, reach_registry, reach_empty. }
  exact H.
Qed.

Lemma map_values_enumerates : enumerates_values map_values.
Proof.
  intros d t. unfold map_values. rewrite list_elem_of_fmap. split.
  - intros ([key t'] & -> & Hin). exists key. by apply elem_of_map_to_list.
  - intros [key Hkey]. exists (key, t). split; [done |].
    by apply elem_of_map_to_list.
Qed.

Lemma get_oid_outcomes_witness :
  (∀ s, example_index !! normalize_key (PStr s) = None →
        TypesRegistry.get_oid 0%nat (PStr s) example_heap
        = (Raise (KeyError (normalize_key (PStr s))), example_heap))
  ∧ (∀ s t i, example_index !! normalize_key (PStr s) = Some t →
        objects example_heap !! t = Some i →
        TypesRegistry.get_oid 0%nat (PStr s) example_heap
        = (Ok (if endswith s "[]" then array_oid i else oid i), example_heap))
  ∧ (∀ z t, example_index !! PInt z = Some t →
        TypesRegistry.get_oid 0%nat (PInt z) example_heap
        = (Raise (AttributeError "'int' object has no attribute 'endswith'"),
           example_heap))
  ∧ (∀ z, example_index !! PInt z = None →
        TypesRegistry.get_oid 0%nat (PInt z) example_heap
        = (Raise (KeyError (PInt z)), example_heap)).
Proof.
  apply (get_oid_outcomes example_heap 0%nat
           {| _registry := 1%nat; _own_state := true |} example_index);
    reflexivity.
Defined.

Lemma get_by_subtype_outcomes_witness :
  (example_index !! normalize_key (PInt 1) = None →
   TypesRegistry.get_by_subtype 0%nat "RangeInfo" (PInt 1) example_heap
   = (Ok None, example_heap))
  ∧ (∀ t i, example_index !! normalize_key (PInt 1) = Some t →
       objects example_heap !! t = Some i →
       TypesRegistry.get_by_subtype 0%nat "RangeInfo" (PInt 1) example_heap
       = (Ok (example_index !! PTuple [AType "RangeInfo"; AInt (oid i)]),
          example_heap)).
Proof.
  apply (get_by_subtype_outcomes example_heap 0%nat
           {| _registry := 1%nat; _own_state := true |} example_index
           "RangeInfo" (PInt 1));
    [reflexivity | reflexivity | discriminate].
Defined.

Lemma array_marker_is_ignored_witness :
  TypesRegistry.__getitem__ 0%nat (PStr "nosuch[]") example_heap
  = TypesRegistry.__getitem__ 0%nat (PStr "nosuch") example_heap
  ∧ TypesRegistry.get 0%nat (PStr "nosuch[]") example_heap
    = TypesRegistry.get 0%nat (PStr "nosuch") example_heap
  ∧ ∀ cls, TypesRegistry.get_by_subtype 0%nat cls (PStr "nosuch[]") example_heap
           = TypesRegistry.get_by_subtype 0%nat cls (PStr "nosuch") example_heap.
Proof.
  apply (array_marker_is_ignored example_heap 0%nat "nosuch"). reflexivity.
Defined.

Lemma new_registry_is_empty_witness :
  ∃ B h',
    TypesRegistry.__init__ None example_heap = (Ok B, h')
    ∧ registries example_heap !! B = None
    ∧ (∃ own, registries h' !! B
              = Some {| _registry := own; _own_state := true |})
    ∧ own_storage h' B = Some ∅
    ∧ (∀ key (cls : string), (∀ tn, key ≠ POther tn) →
         TypesRegistry.__getitem__ B key h'
         = (Raise (KeyError (normalize_key key)), h')
         ∧ TypesRegistry.get B key h' = (Ok None, h')
         ∧ TypesRegistry.get_by_subtype B cls key h' = (Ok None, h'))
    ∧ ∀ o : loc, o ≠ B → lookups_agree example_heap h' o.
Proof.
  apply (new_registry_is_empty example_heap).
  apply (bool_decide_unpack _). vm_compute. exact I.
Defined.

Lemma derived_registry_sees_template_witness :
  ∃ B h1,
    TypesRegistry.__init__ (Some 0%nat) example_heap = (Ok B, h1)
    ∧ registries example_heap !! B = None
    ∧ lookups_coincide example_heap 0%nat h1 B
    ∧ ∀ o : loc, o ≠ B → lookups_agree example_heap h1 o.
Proof.
  apply (derived_registry_sees_template example_heap 0%nat
           {| _registry := 1%nat; _own_state := true |});
    [apply (bool_decide_unpack _); vm_compute; exact I | reflexivity].
Defined.

Lemma ensure_own_state_keeps_lookups_witness :
  ∃ h' r',
    TypesRegistry._ensure_own_state 6%nat derived_heap = (Ok (), h')
    ∧ registries h' !! 6%nat = Some r' ∧ _own_state r' = true
    ∧ own_storage h' 6%nat = own_storage derived_heap 6%nat
    ∧ (∀ o : loc, lookups_agree derived_heap h' o)
    ∧ TypesRegistry._ensure_own_state 6%nat h' = (Ok (), h').
Proof.
  apply (ensure_own_state_keeps_lookups derived_heap 6%nat
           {| _registry := 1%nat; _own_state := false |});
    [apply (bool_decide_unpack _); vm_compute; exact I | reflexivity].
Defined.

Lemma add_twice_is_add_once_witness :
  ∃ h', TypesRegistry.add 0%nat 3%nat example_heap = (Ok (), h')
        ∧ TypesRegistry.add 0%nat 3%nat h' = (Ok (), h').
Proof.
  apply (add_twice_is_add_once example_heap 0%nat
           {| _registry := 1%nat; _own_state := true |} example_index 3%nat
           {| name := "bar"; oid := 3; array_oid := 4; regtype := "foo";
              delimiter := "," |});
    reflexivity.
Defined.

Lemma add_changes_only_its_keys_witness :
  ∃ h' idx,
    TypesRegistry.add 0%nat 3%nat example_heap = (Ok (), h')
    ∧ own_storage h' 0%nat = Some idx
    ∧ (∀ key, is_Some (example_index !! key) → is_Some (idx !! key))
    ∧ (∀ key t, idx !! key = Some t →
         t = 3%nat ∨ example_index !! key = Some t)
    ∧ (∀ key, key ≠ PInt 3 → key ≠ PInt 4 → key ≠ PStr "bar" →
              key ≠ PStr "foo" → idx !! key = example_index !! key)
    ∧ objects h' = objects example_heap.
Proof.
  apply (add_changes_only_its_keys example_heap 0%nat
           {| _registry := 1%nat; _own_state := true |} example_index 3%nat
           {| name := "bar"; oid := 3; array_oid := 4; regtype := "foo";
              delimiter := "," |});
    reflexivity.
Defined.

Lemma only_first_add_copies_witness :
  ∃ h1 h2 r1,
    TypesRegistry.add 6%nat 3%nat derived_heap = (Ok (), h1)
    ∧ registries h1 !! 6%nat = Some r1 ∧ _own_state r1 = true
    ∧ TypesRegistry.add 6%nat 5%nat h1 = (Ok (), h2)
    ∧ registries h2 = registries h1
    ∧ next_loc h2 = next_loc h1
    ∧ objects h2 = objects h1.
Proof.
  apply (only_first_add_copies derived_heap 6%nat
           {| _registry := 1%nat; _own_state := false |} example_index
           3%nat 5%nat
           {| name := "bar"; oid := 3; array_oid := 4; regtype := "foo";
              delimiter := "," |}
           {| name := "int4"; oid := 23; array_oid := 1007;
              regtype := "integer"; delimiter := "," |});
    reflexivity.
Defined.

Lemma reachable_invariants_witness :
  wf example_heap
  ∧ (∀ (r1 r2 : loc) reg1 reg2,
       registries example_heap !! r1 = Some reg1 →
       registries example_heap !! r2 = Some reg2 →
       r1 ≠ r2 → _registry reg1 = _registry reg2 →
       _own_state reg1 = false ∧ _own_state reg2 = false)
  ∧ (∀ (self : loc) reg, registries example_heap !! self = Some reg →
       ∃ d, dicts example_heap !! _registry reg = Some d
            ∧ ∀ key t, d !! key = Some t →
                is_Some (objects example_heap !! t)
                ∧ ((∃ s, key = PStr s) ∨ (∃ z, key = PInt z))).
Proof.
  apply (reachable_invariants example_heap). exact reachable_example_heap.
Defined.

Lemma mutation_is_isolated_witness :
  (∃ h', TypesRegistry.add 6%nat 3%nat derived_heap = (Ok (), h')
         ∧ lookups_agree derived_heap h' 0%nat)
  ∧ (∃ h', TypesRegistry.clear 6%nat derived_heap = (Ok (), h')
           ∧ lookups_agree derived_heap h' 0%nat).
Proof.
  apply (mutation_is_isolated derived_heap 6%nat 0%nat
           {| _registry := 1%nat; _own_state := false |} 3%nat
           {| name := "bar"; oid := 3; array_oid := 4; regtype := "foo";
              delimiter := "," |});
    [apply (bool_decide_unpack _); vm_compute; exact I
    | apply (bool_decide_unpack _); vm_compute; exact I
    | discriminate | reflexivity | reflexivity].
Defined.

Lemma fetch_then_add_resolves_witness :
  ∃ x h1 h2,
    TypeInfo.fetch (λ (_ : unit) _, "") (λ _ _ _, QRows [int4_row]) pg15
      (NameStr "int4") example_heap = (Ok (Some x), h1)
    ∧ TypesRegistry.add 0%nat x h1 = (Ok (), h2)
    ∧ TypesRegistry.__getitem__ 0%nat (PStr "int4") h2 = (Ok x, h2)
    ∧ TypesRegistry.get_oid 0%nat (PStr "int4") h2 = (Ok 23%Z, h2)
    ∧ TypesRegistry.get_oid 0%nat (PStr "int4[]") h2 = (Ok 1007%Z, h2).
Proof.
  apply (fetch_then_add_resolves (λ (_ : unit) _, "")
           (λ _ _ _, QRows [int4_row]) pg15 (NameStr "int4") int4_row
           example_heap 0%nat {| _registry := 1%nat; _own_state := true |});
    [by left | reflexivity
    | apply (bool_decide_unpack _); vm_compute; exact I
    | reflexivity | reflexivity].
Defined.


Lemma iter_after_first_add_witness :
  ∃ h', TypesRegistry.add 0%nat 2%nat empty_registry_heap = (Ok (), h')
        ∧ TypesRegistry.__iter__ map_values 0%nat h' = (Ok [2%nat], h').
Proof.
  apply (iter_after_first_add map_values empty_registry_heap 0%nat
           {| _registry := 1%nat; _own_state := true |} 2%nat
           {| name := "foo"; oid := 1; array_oid := 2; regtype := "foo";
              delimiter := "," |});
    [exact map_values_enumerates | reflexivity | reflexivity | reflexivity].
Defined.

Lemma register_selects_registry_witness :
  ∃ h', register (λ _ : unit, 6%nat) 0%nat (λ _ _, mret ()) 5%nat (Some ())
          derived_heap
        = (Ok (), h')
        ∧ TypesRegistry.__getitem__ 6%nat (PStr "int4") h' = (Ok 5%nat, h')
        ∧ ∀ o : loc, o ≠ 6%nat → lookups_agree derived_heap h' o.
Proof.
  apply (register_selects_registry (λ _ : unit, 6%nat) 0%nat (λ _ _, mret ())
           derived_heap 5%nat
           {| name := "int4"; oid := 23; array_oid := 1007;
              regtype := "integer"; delimiter := "," |}
           (Some ()) 6%nat {| _registry := 1%nat; _own_state := false |});
    [intros info ctx h0; by exists h0
    | reflexivity
    | apply (bool_decide_unpack _); vm_compute; exact I
    | apply (bool_decide_unpack _); vm_compute; exact I
    | reflexivity | reflexivity | reflexivity].
Defined.

Lemma get_by_subtype_plain_registry_witness :
  TypesRegistry.get_by_subtype 0%nat "RangeInfo" (PStr "foo") example_heap
  = (Ok None, example_heap).
Proof.
  apply (get_by_subtype_plain_registry example_heap 0%nat
           {| _registry := 1%nat; _own_state := true |} "RangeInfo"
           (PStr "foo"));
    [exact reachable_example_heap | reflexivity | discriminate].
Defined.

Lemma same_name_takes_over_witness :
  ∃ h', TypesRegistry.add 0%nat 6%nat second_foo_heap = (Ok (), h')
        ∧ TypesRegistry.__getitem__ 0%nat (PStr "foo") h' = (Ok 6%nat, h')
        ∧ TypesRegistry.__getitem__ 0%nat (PInt 1) h' = (Ok 2%nat, h').
Proof.
  apply (same_name_takes_over second_foo_heap 0%nat
           {| _registry := 1%nat; _own_state := true |} example_index
           2%nat 6%nat
           {| name := "foo"; oid := 7; array_oid := 8; regtype := "foo";
              delimiter := "," |} 1%Z);
    [reflexivity | reflexivity | reflexivity | reflexivity | reflexivity
    | discriminate | discriminate | reflexivity].
Defined.

Lemma construction_changes_no_lookup_witness :
  (∀ (n : string) (o a : Z) (rt dl : string) (r : loc),
     lookups_agree example_heap
       (snd (TypeInfo.__init__ n o a rt dl example_heap)) r)
  ∧ (∀ conn (name : name_arg unit) (r : loc),
       lookups_agree example_heap
         (snd (TypeInfo.fetch (λ (_ : unit) _, "")
                 (λ _ _ _, QRows [int4_row]) conn name example_heap)) r).
Proof.
  apply (construction_changes_no_lookup (λ (_ : unit) _, "")
           (λ _ _ _, QRows [int4_row]) example_heap).
  exact reachable_example_heap.
Defined.
